(** * Verification of the Thrift-to-model span bridge (pkg/jaeger/bridge.go)

    A shallow embedding of the conversion functions [convertTag],
    [convertTags], [convertLogs], [convertSpanRef], [convertSpan],
    [convertProcess] and of the HTTP handler [HandleTraces], followed by the
    properties the specification states about them. *)

From Stdlib Require Import ZArith List String Bool Lia Floats.
Import ListNotations.

Local Open Scope Z_scope.

(** ** Go values *)

(** A Go slice is either nil or an allocated sequence, which may have length
    zero.  [None] is the nil slice. *)
Definition slice (A : Type) : Type := option (list A).

Definition elems {A : Type} (s : slice A) : list A :=
  match s with
  | None => []
  | Some l => l
  end.

Definition len {A : Type} (s : slice A) : Z := Z.of_nat (List.length (elems s)).

(** [append(s, x)]: appending to a nil slice allocates. *)
Definition append {A : Type} (s : slice A) (x : A) : slice A :=
  Some (elems s ++ [x]).

(** A Go pointer that may be nil.  [&T{...}] is [Some]. *)
Definition ptr (A : Type) : Type := option A.

(** ** Fixed-width integers

    Signed fields are carried as [Z] within [int64_range] (resp.
    [int32_range]); the arithmetic and the conversions of the source are
    written with their wrap-around. *)
Module Int.

Definition int64_range (z : Z) : Prop := - 2 ^ 63 <= z < 2 ^ 63.
Definition uint64_range (z : Z) : Prop := 0 <= z < 2 ^ 64.
Definition int32_range (z : Z) : Prop := - 2 ^ 31 <= z < 2 ^ 31.

(** The conversion [uint64(x)] of a signed value. *)
Definition uint64 (z : Z) : Z := z mod 2 ^ 64.

(** The conversion [uint32(x)] of a signed value. *)
Definition uint32 (z : Z) : Z := z mod 2 ^ 32.

(** The result of a signed 64-bit operation whose exact value is [z]. *)
Definition wrap_int64 (z : Z) : Z := (z + 2 ^ 63) mod 2 ^ 64 - 2 ^ 63.

(** [a * b] on [int64]. *)
Definition mul_int64 (a b : Z) : Z := wrap_int64 (a * b).

End Int.

(** ** The standard library's [time] package, as far as the bridge uses it *)
Module time.

(** [time.Duration] is an [int64] count of nanoseconds. *)
Definition Duration : Type := Z.

Definition Nanosecond : Duration := 1.
Definition Microsecond : Duration := 1000 * Nanosecond.

(** An instant, as [time.Unix] builds it: whole seconds since the Unix
    epoch and a nanosecond offset within the second. *)
Record Time : Type := mkTime { sec : Z; nsec : Z }.

(** [time.Unix(sec, nsec)]: an [nsec] outside [0, 999999999] is carried
    into the seconds.  The division is Go's, truncated towards zero. *)
Definition Unix (sec nsec : Z) : Time :=
  if (nsec <? 0) || (nsec >=? 1000000000) then
    let n := Z.quot nsec 1000000000 in
    let sec := sec + n in
    let nsec := nsec - n * 1000000000 in
    if nsec <? 0 then mkTime (sec - 1) (nsec + 1000000000)
    else mkTime sec nsec
  else mkTime sec nsec.

(** Nanoseconds elapsed since the Unix epoch (exact, not wrapped). *)
Definition since_epoch (t : Time) : Z := sec t * 1000000000 + nsec t.

End time.

(** ** The legacy (Thrift) structures *)
Module jaegerthrift.

(** Modelled from the spec: the generated Thrift package is not part of
    this repository.  Its enumerations are integer types, so a decoded
    discriminator may hold a value that none of the constants names; the
    constants carry the values of the Jaeger interface definition. *)
Definition TagType : Type := Z.
Definition TagType_STRING : TagType := 0.
Definition TagType_DOUBLE : TagType := 1.
Definition TagType_BOOL : TagType := 2.
Definition TagType_LONG : TagType := 3.
Definition TagType_BINARY : TagType := 4.

Definition SpanRefType : Type := Z.
Definition SpanRefType_CHILD_OF : SpanRefType := 0.
Definition SpanRefType_FOLLOWS_FROM : SpanRefType := 1.

(** The payload slots are optional: a pointer for the scalar ones, a
    byte slice for the binary one. *)
Record Tag : Type := mkTag {
  Key : string;
  VType : TagType;
  VStr : ptr string;
  VDouble : ptr float;
  VBool : ptr bool;
  VLong : ptr Z;
  VBinary : slice Byte.byte
}.

Record Log : Type := mkLog {
  Timestamp : Z;
  Fields : slice Tag
}.

Record SpanRef : Type := mkSpanRef {
  RefType : SpanRefType;
  ref_TraceIdLow : Z;
  ref_TraceIdHigh : Z;
  ref_SpanId : Z
}.

Record Span : Type := mkSpan {
  TraceIdLow : Z;
  TraceIdHigh : Z;
  SpanId : Z;
  ParentSpanId : Z;
  OperationName : string;
  References : slice SpanRef;
  Flags : Z;
  StartTime : Z;
  Duration : Z;
  Tags : slice Tag;
  Logs : slice Log
}.

Record Process : Type := mkProcess {
  ServiceName : string;
  proc_Tags : slice Tag
}.

Record Batch : Type := mkBatch {
  batch_Process : ptr Process;
  Spans : slice Span
}.

(** The signed fields of a decoded span lie in the range of their type. *)
Definition Span_wf (s : Span) : Prop :=
  Int.int64_range (TraceIdLow s) /\
  Int.int64_range (TraceIdHigh s) /\
  Int.int64_range (SpanId s) /\
  Int.int64_range (ParentSpanId s) /\
  Int.int32_range (Flags s) /\
  Int.int64_range (StartTime s) /\
  Int.int64_range (Duration s).

End jaegerthrift.

(** ** The canonical model (jaeger-idl model/v1) *)
Module v1.

Inductive ValueType : Type :=
| ValueType_STRING
| ValueType_BOOL
| ValueType_INT64
| ValueType_FLOAT64
| ValueType_BINARY.

Inductive SpanRefType : Type :=
| SpanRefType_CHILD_OF
| SpanRefType_FOLLOWS_FROM.

Definition SpanRefType_eqb (a b : SpanRefType) : bool :=
  match a, b with
  | SpanRefType_CHILD_OF, SpanRefType_CHILD_OF => true
  | SpanRefType_FOLLOWS_FROM, SpanRefType_FOLLOWS_FROM => true
  | _, _ => false
  end.

Record KeyValue : Type := mkKeyValue {
  Key : string;
  VType : ValueType;
  VStr : string;
  VBool : bool;
  VInt64 : Z;
  VFloat64 : float;
  VBinary : slice Byte.byte
}.

Record Log : Type := mkLog {
  Timestamp : time.Time;
  Fields : slice KeyValue
}.

Record TraceID : Type := mkTraceID { Low : Z; High : Z }.

Record SpanRef : Type := mkSpanRef {
  ref_TraceID : TraceID;
  ref_SpanID : Z;
  RefType : SpanRefType
}.

Record Process : Type := mkProcess {
  ServiceName : string;
  proc_Tags : slice KeyValue
}.

Record Span : Type := mkSpan {
  span_TraceID : TraceID;
  SpanID : Z;
  OperationName : string;
  References : slice SpanRef;
  Flags : Z;
  StartTime : time.Time;
  Duration : time.Duration;
  Tags : slice KeyValue;
  Logs : slice Log;
  span_Process : ptr Process
}.

Record Batch : Type := mkBatch {
  Spans : slice (ptr Span);
  batch_Process : ptr Process
}.

End v1.

(** ** The conversion functions of bridge.go

    The element pointers of the decoded slices are dereferenced without a
    nil test by the source; the functions below take the pointee. *)

(** The zero value of a [v1.KeyValue] with the given key, which
    [v1.KeyValue{Key: t.Key}] builds. *)
Definition KeyValue_zero (k : string) : v1.KeyValue :=
  v1.mkKeyValue k v1.ValueType_STRING EmptyString false 0 PrimFloat.zero None.

Definition set_VType (kv : v1.KeyValue) (ty : v1.ValueType) : v1.KeyValue :=
  v1.mkKeyValue (v1.Key kv) ty (v1.VStr kv) (v1.VBool kv) (v1.VInt64 kv)
    (v1.VFloat64 kv) (v1.VBinary kv).

Definition set_VStr (kv : v1.KeyValue) (x : string) : v1.KeyValue :=
  v1.mkKeyValue (v1.Key kv) (v1.VType kv) x (v1.VBool kv) (v1.VInt64 kv)
    (v1.VFloat64 kv) (v1.VBinary kv).

Definition set_VBool (kv : v1.KeyValue) (x : bool) : v1.KeyValue :=
  v1.mkKeyValue (v1.Key kv) (v1.VType kv) (v1.VStr kv) x (v1.VInt64 kv)
    (v1.VFloat64 kv) (v1.VBinary kv).

Definition set_VInt64 (kv : v1.KeyValue) (x : Z) : v1.KeyValue :=
  v1.mkKeyValue (v1.Key kv) (v1.VType kv) (v1.VStr kv) (v1.VBool kv) x
    (v1.VFloat64 kv) (v1.VBinary kv).

Definition set_VFloat64 (kv : v1.KeyValue) (x : float) : v1.KeyValue :=
  v1.mkKeyValue (v1.Key kv) (v1.VType kv) (v1.VStr kv) (v1.VBool kv)
    (v1.VInt64 kv) x (v1.VBinary kv).

Definition set_VBinary (kv : v1.KeyValue) (x : slice Byte.byte) : v1.KeyValue :=
  v1.mkKeyValue (v1.Key kv) (v1.VType kv) (v1.VStr kv) (v1.VBool kv)
    (v1.VInt64 kv) (v1.VFloat64 kv) x.

(** [if p != nil { kv = set kv *p }] *)
Definition set_if_present {A : Type} (set : v1.KeyValue -> A -> v1.KeyValue)
    (kv : v1.KeyValue) (p : ptr A) : v1.KeyValue :=
  match p with
  | Some x => set kv x
  | None => kv
  end.

Definition convertTag (t : jaegerthrift.Tag) : v1.KeyValue :=
  let kv := KeyValue_zero (jaegerthrift.Key t) in
  if jaegerthrift.VType t =? jaegerthrift.TagType_BOOL then
    let kv := set_VType kv v1.ValueType_BOOL in
    set_if_present set_VBool kv (jaegerthrift.VBool t)
  else if jaegerthrift.VType t =? jaegerthrift.TagType_LONG then
    let kv := set_VType kv v1.ValueType_INT64 in
    set_if_present set_VInt64 kv (jaegerthrift.VLong t)
  else if jaegerthrift.VType t =? jaegerthrift.TagType_DOUBLE then
    let kv := set_VType kv v1.ValueType_FLOAT64 in
    set_if_present set_VFloat64 kv (jaegerthrift.VDouble t)
  else if jaegerthrift.VType t =? jaegerthrift.TagType_BINARY then
    let kv := set_VType kv v1.ValueType_BINARY in
    set_VBinary kv (jaegerthrift.VBinary t)
  else
    let kv := set_VType kv v1.ValueType_STRING in
    set_if_present set_VStr kv (jaegerthrift.VStr t).

(** *** Index loops over a freshly made slice *)

(** [make([]T, n)]: [n] zero values. *)
Definition make {B : Type} (zero : B) (n : nat) : list B := repeat zero n.

(** [out[i] = v].  The source only stores at the index of a [range] loop
    over a slice of the same length, so the index is in bounds (see
    [range_store_map]); out of bounds the list is left as it is. *)
Fixpoint store {B : Type} (out : list B) (i : nat) (v : B) : list B :=
  match out, i with
  | [], _ => []
  | _ :: out', O => v :: out'
  | b :: out', S i' => b :: store out' i' v
  end.

(** [for i, x := range l { out[i] = f(x) }], entered at index [i]. *)
Fixpoint range_store {A B : Type} (f : A -> B) (l : list A) (i : nat)
    (out : list B) : list B :=
  match l with
  | [] => out
  | x :: l' => range_store f l' (S i) (store out i (f x))
  end.

Definition convertTags (tags : slice jaegerthrift.Tag) : slice v1.KeyValue :=
  if len tags =? 0 then None
  else
    let out := make (KeyValue_zero EmptyString) (List.length (elems tags)) in
    Some (range_store convertTag (elems tags) 0 out).

(** The zero [time.Time] is January 1 of year 1, 00:00:00 UTC. *)
Definition Time_zero : time.Time := time.mkTime (-62135596800) 0.

Definition Log_zero : v1.Log := v1.mkLog Time_zero None.

(** The body of the loop of [convertLogs]: the entry built for one log. *)
Definition convertLog (l : jaegerthrift.Log) : v1.Log :=
  v1.mkLog
    (time.Unix 0 (Int.mul_int64 (jaegerthrift.Timestamp l) time.Microsecond))
    (convertTags (jaegerthrift.Fields l)).

Definition convertLogs (logs : slice jaegerthrift.Log) : slice v1.Log :=
  if len logs =? 0 then None
  else
    let out := make Log_zero (List.length (elems logs)) in
    Some (range_store convertLog (elems logs) 0 out).

Definition convertSpanRef (r : jaegerthrift.SpanRef) : v1.SpanRef :=
  let refType := v1.SpanRefType_CHILD_OF in
  let refType :=
    if jaegerthrift.RefType r =? jaegerthrift.SpanRefType_FOLLOWS_FROM
    then v1.SpanRefType_FOLLOWS_FROM
    else refType in
  v1.mkSpanRef
    (v1.mkTraceID (Int.uint64 (jaegerthrift.ref_TraceIdLow r))
                  (Int.uint64 (jaegerthrift.ref_TraceIdHigh r)))
    (Int.uint64 (jaegerthrift.ref_SpanId r))
    refType.

(** [for _, r := range rs { refs = append(refs, convertSpanRef(r)) }] *)
Definition append_refs (refs : slice v1.SpanRef)
    (rs : list jaegerthrift.SpanRef) : slice v1.SpanRef :=
  fold_left (fun acc r => append acc (convertSpanRef r)) rs refs.

(** The scan that sets [alreadyPresent], leaving at the first match. *)
Fixpoint alreadyPresent (parent : Z) (refs : list v1.SpanRef) : bool :=
  match refs with
  | [] => false
  | ref :: rest =>
      if v1.SpanRefType_eqb (v1.RefType ref) v1.SpanRefType_CHILD_OF
         && (v1.ref_SpanID ref =? Int.uint64 parent)
      then true
      else alreadyPresent parent rest
  end.

Definition convertSpan (s : jaegerthrift.Span) : ptr v1.Span :=
  let traceID :=
    v1.mkTraceID (Int.uint64 (jaegerthrift.TraceIdLow s))
                 (Int.uint64 (jaegerthrift.TraceIdHigh s)) in
  let refs : slice v1.SpanRef := None in
  let refs := append_refs refs (elems (jaegerthrift.References s)) in
  let refs :=
    if negb (jaegerthrift.ParentSpanId s =? 0) then
      if negb (alreadyPresent (jaegerthrift.ParentSpanId s) (elems refs)) then
        append refs
          (v1.mkSpanRef traceID (Int.uint64 (jaegerthrift.ParentSpanId s))
             v1.SpanRefType_CHILD_OF)
      else refs
    else refs in
  Some (v1.mkSpan
          traceID
          (Int.uint64 (jaegerthrift.SpanId s))
          (jaegerthrift.OperationName s)
          refs
          (Int.uint32 (jaegerthrift.Flags s))
          (time.Unix 0 (Int.mul_int64 (jaegerthrift.StartTime s) time.Microsecond))
          (Int.mul_int64 (jaegerthrift.Duration s) time.Microsecond)
          (convertTags (jaegerthrift.Tags s))
          (convertLogs (jaegerthrift.Logs s))
          None).

Definition convertProcess (p : ptr jaegerthrift.Process) : ptr v1.Process :=
  match p with
  | None => Some (v1.mkProcess EmptyString None)
  | Some p =>
      Some (v1.mkProcess (jaegerthrift.ServiceName p)
              (convertTags (jaegerthrift.proc_Tags p)))
  end.

(** ** The HTTP handler *)

(** A Go [error] value; only its presence is looked at. *)
Definition error : Type := string.

Module http.

Definition MethodPost : string := "POST".

Definition StatusAccepted : Z := 202.
Definition StatusBadRequest : Z := 400.
Definition StatusMethodNotAllowed : Z := 405.
Definition StatusInternalServerError : Z := 500.

(** What the request body yields: the bytes [io.ReadAll] returns together
    with its error, and the error of [Close]. *)
Record Body : Type := mkBody {
  read_data : list Byte.byte;
  read_err : option error;
  close_err : option error
}.

Record Request : Type := mkRequest {
  Method : string;
  body : Body
}.

End http.

(** An argument of a log call. *)
Inductive log_arg : Type :=
| ArgErr (e : error)
| ArgInt (n : Z).

(** What one run of the handler leaves behind: the status codes passed to
    [w.WriteHeader], and the lines handed to the logger, both oldest
    first. *)
Record effects : Type := mkEffects {
  statuses : list Z;
  logged : list (string * list log_arg)
}.

Definition no_effects : effects := mkEffects [] [].

Definition WriteHeader (code : Z) (w : effects) : effects :=
  mkEffects (statuses w ++ [code]) (logged w).

Definition Println (msg : string) (args : list log_arg) (w : effects) : effects :=
  mkEffects (statuses w) (logged w ++ [(msg, args)]).

Definition io_ReadAll (b : http.Body) : list Byte.byte * option error :=
  (http.read_data b, http.read_err b).

(** [thrift.TMemoryBuffer] embeds a [bytes.Buffer], whose [Write] appends
    the bytes and returns a nil error. *)
Definition TMemoryBuffer : Type := list Byte.byte.

Definition NewTMemoryBuffer : TMemoryBuffer := [].

Definition TMemoryBuffer_Write (t : TMemoryBuffer) (data : list Byte.byte)
    : TMemoryBuffer * (Z * option error) :=
  (t ++ data, (Z.of_nat (List.length data), None)).

Record PostSpansRequest : Type := mkPostSpansRequest { Batch : v1.Batch }.

(** [span.Process = proc] through the pointer [convertSpan] returned. *)
Definition set_Process (span : ptr v1.Span) (proc : ptr v1.Process)
    : ptr v1.Span :=
  match span with
  | Some sp =>
      Some (v1.mkSpan (v1.span_TraceID sp) (v1.SpanID sp) (v1.OperationName sp)
              (v1.References sp) (v1.Flags sp) (v1.StartTime sp)
              (v1.Duration sp) (v1.Tags sp) (v1.Logs sp) proc)
  | None => None
  end.

(** The loop of the handler over [batch.Spans]. *)
Definition convertSpans (proc : ptr v1.Process)
    (spans : slice (ptr v1.Span)) (ss : list jaegerthrift.Span)
    : slice (ptr v1.Span) :=
  fold_left
    (fun spans s =>
       let span := convertSpan s in
       let span := set_Process span proc in
       append spans span)
    ss spans.

Section Handler.

(** The two collaborators outside this repository: the Thrift decoder
    ([batch.Read] over the binary protocol on the buffer) and the gRPC
    collector client. *)
Variable Batch_Read : TMemoryBuffer -> error + jaegerthrift.Batch.
Variable PostSpans : PostSpansRequest -> option error.

(** The function [HandleTraces(client)] returns, run on request [r]. *)
Definition HandleTraces (r : http.Request) (w : effects) : effects :=
  if negb (String.eqb (http.Method r) http.MethodPost) then
    WriteHeader http.StatusMethodNotAllowed w
  else
    let (data, err) := io_ReadAll (http.body r) in
    match err with
    | Some e =>
        let w := Println "read body error:" [ArgErr e] w in
        WriteHeader http.StatusBadRequest w
    | None =>
        let w :=
          match http.close_err (http.body r) with
          | Some e => Println "body close error:" [ArgErr e] w
          | None => w
          end in
        if Z.of_nat (List.length data) =? 0 then
          let w := Println "empty request body" [] w in
          WriteHeader http.StatusBadRequest w
        else
          let transport := NewTMemoryBuffer in
          let (transport, res) := TMemoryBuffer_Write transport data in
          match snd res with
          | Some e =>
              let w := Println "thrift buffer write failed:" [ArgErr e] w in
              WriteHeader http.StatusBadRequest w
          | None =>
              match Batch_Read transport with
              | inl e =>
                  let w :=
                    Println "thrift decode failed"
                      [ArgInt (Z.of_nat (List.length data)); ArgErr e] w in
                  WriteHeader http.StatusBadRequest w
              | inr batch =>
                  let spans : slice (ptr v1.Span) := Some [] in
                  let proc := convertProcess (jaegerthrift.batch_Process batch) in
                  let spans :=
                    convertSpans proc spans (elems (jaegerthrift.Spans batch)) in
                  let grpcBatch := v1.mkBatch spans proc in
                  let req := mkPostSpansRequest grpcBatch in
                  match PostSpans req with
                  | Some e =>
                      let w := Println "gRPC PostSpans error:" [ArgErr e] w in
                      WriteHeader http.StatusInternalServerError w
                  | None =>
                      let w := WriteHeader http.StatusAccepted w in
                      Println "forwarded spans:" [ArgInt (len spans)] w
                  end
              end
          end
    end.

(** The request the handler submits, when it gets as far as submitting. *)
Definition submitted (r : http.Request) : option PostSpansRequest :=
  match Batch_Read (NewTMemoryBuffer ++ http.read_data (http.body r)) with
  | inl _ => None
  | inr batch =>
      let proc := convertProcess (jaegerthrift.batch_Process batch) in
      Some (mkPostSpansRequest
              (v1.mkBatch
                 (convertSpans proc (Some []) (elems (jaegerthrift.Spans batch)))
                 proc))
  end.

(** The status the specification asks of the handler, case by case:
    405 for a method other than POST, 400 for a read error, an empty body
    or a batch that does not decode, 500 for a failed submission, 202
    otherwise. *)
Definition expected_status (r : http.Request) : Z :=
  if negb (String.eqb (http.Method r) http.MethodPost) then
    http.StatusMethodNotAllowed
  else
    match http.read_err (http.body r), http.read_data (http.body r) with
    | Some _, _ => http.StatusBadRequest
    | None, [] => http.StatusBadRequest
    | None, _ :: _ =>
        match submitted r with
        | None => http.StatusBadRequest
        | Some req =>
            match PostSpans req with
            | Some _ => http.StatusInternalServerError
            | None => http.StatusAccepted
            end
        end
    end.

End Handler.

(** ** Notions the statements use *)

(** The value of an optional payload slot, or the given zero value. *)
Definition slot_or {A : Type} (zero : A) (p : ptr A) : A :=
  match p with
  | Some x => x
  | None => zero
  end.

(** The unsigned 64-bit value [u] has the bit pattern of the signed 64-bit
    value [x] (in two's complement, bits 0 to 63). *)
Definition same_bits64 (x u : Z) : Prop :=
  Int.uint64_range u /\
  forall i, 0 <= i < 64 -> Z.testbit u i = Z.testbit x i.

(** The unsigned 32-bit value [u] has the bit pattern of the signed 32-bit
    value [x]. *)
Definition same_bits32 (x u : Z) : Prop :=
  0 <= u < 2 ^ 32 /\
  forall i, 0 <= i < 32 -> Z.testbit u i = Z.testbit x i.

(** The span id of every explicit reference lies in the range of its type. *)
Definition refs_wf (s : jaegerthrift.Span) : Prop :=
  forall r, In r (elems (jaegerthrift.References s)) ->
            Int.int64_range (jaegerthrift.ref_SpanId r).

(** A legacy reference that stands for the parent [parent]: its span id is
    the parent's and its discriminator is anything but FOLLOWS_FROM. *)
Definition names_parent (parent : Z) (r : jaegerthrift.SpanRef) : Prop :=
  jaegerthrift.RefType r <> jaegerthrift.SpanRefType_FOLLOWS_FROM /\
  jaegerthrift.ref_SpanId r = parent.

(** The reference synthesized from the parent span id of [s]. *)
Definition implicit_parent_ref (s : jaegerthrift.Span) : v1.SpanRef :=
  v1.mkSpanRef
    (v1.mkTraceID (Int.uint64 (jaegerthrift.TraceIdLow s))
                  (Int.uint64 (jaegerthrift.TraceIdHigh s)))
    (Int.uint64 (jaegerthrift.ParentSpanId s))
    v1.SpanRefType_CHILD_OF.

(** The submission that corresponds to a decoded batch: the converted
    process, and the converted spans in order, each with that process
    attached, in an allocated slice. *)
Definition request_of (batch : jaegerthrift.Batch) : PostSpansRequest :=
  let proc := convertProcess (jaegerthrift.batch_Process batch) in
  mkPostSpansRequest
    (v1.mkBatch
       (Some (map (fun s => set_Process (convertSpan s) proc)
                (elems (jaegerthrift.Spans batch))))
       proc).

(** The handler gets as far as decoding: a POST whose body is read without
    error and is not empty. *)
Definition reaches_decoder (r : http.Request) : Prop :=
  http.Method r = http.MethodPost /\
  http.read_err (http.body r) = None /\
  http.read_data (http.body r) <> [].

(** The number of lines one run of the handler hands to the logger: none
    for a method other than POST, otherwise one for the outcome, and one
    more when the body was read and closing it failed. *)
Definition expected_log_lines (r : http.Request) : nat :=
  if negb (String.eqb (http.Method r) http.MethodPost) then 0%nat
  else
    match http.read_err (http.body r), http.close_err (http.body r) with
    | Some _, _ => 1%nat
    | None, Some _ => 2%nat
    | None, None => 1%nat
    end.

(** The request [r] with another outcome of closing its body. *)
Definition with_close_err (r : http.Request) (ce : option error) : http.Request :=
  http.mkRequest (http.Method r)
    (http.mkBody (http.read_data (http.body r)) (http.read_err (http.body r)) ce).

(** ** Sample inputs *)

(** A span of trace (0, 1) whose parent id 2 is named by an explicit
    CHILD_OF reference into another trace, (9, 9). *)
Definition span_foreign_parent : jaegerthrift.Span :=
  jaegerthrift.mkSpan 1 0 3 2 EmptyString
    (Some [jaegerthrift.mkSpanRef jaegerthrift.SpanRefType_CHILD_OF 9 9 2])
    0 0 100 None None.

(** The span of the unit test: trace (0, 1), span 2, parent 1, no explicit
    reference. *)
Definition span_implicit_parent : jaegerthrift.Span :=
  jaegerthrift.mkSpan 1 0 2 1 EmptyString None 0 0 100 None None.

(** The span of the unit tests: one second of start time, half a second of
    duration, one log at 1000 microseconds. *)
Definition span_one_second : jaegerthrift.Span :=
  jaegerthrift.mkSpan 1 0 2 0 "op" None 1 1000000 500000 None
    (Some [jaegerthrift.mkLog 1000 None]).

(** A decoder that accepts every buffer as a batch of one span without a
    process, and a collector that accepts every submission. *)
Definition decode_one_span (_ : TMemoryBuffer) : error + jaegerthrift.Batch :=
  inr (jaegerthrift.mkBatch None (Some [span_implicit_parent])).

Definition collector_accepts (_ : PostSpansRequest) : option error := None.

Definition post_one_byte : http.Request :=
  http.mkRequest "POST" (http.mkBody [Byte.x0c] None None).

(** A span whose parent id 2 is carried by an explicit reference with a
    discriminator that no constant names, and one whose parent id 2 is
    carried by a FOLLOWS_FROM reference only. *)
Definition span_unknown_ref_parent : jaegerthrift.Span :=
  jaegerthrift.mkSpan 1 0 3 2 EmptyString
    (Some [jaegerthrift.mkSpanRef 7 1 0 2]) 0 0 100 None None.

Definition span_follows_parent : jaegerthrift.Span :=
  jaegerthrift.mkSpan 1 0 3 2 EmptyString
    (Some [jaegerthrift.mkSpanRef jaegerthrift.SpanRefType_FOLLOWS_FROM 1 0 2])
    0 0 100 None None.

(** A span with negative identifiers and flags. *)
Definition span_negative_ids : jaegerthrift.Span :=
  jaegerthrift.mkSpan (-1) (-2) (-3) 0 EmptyString None (-1) 0 0 None None.

(** A collector that refuses every submission. *)
Definition collector_refuses (_ : PostSpansRequest) : option error :=
  Some "unavailable"%string.

(** A collector that refuses exactly the batches without spans. *)
Definition collector_refuses_empty (req : PostSpansRequest) : option error :=
  match elems (v1.Spans (Batch req)) with
  | [] => Some "empty batch"%string
  | _ :: _ => None
  end.

(** A decoder that rejects every buffer. *)
Definition decode_fails (_ : TMemoryBuffer) : error + jaegerthrift.Batch :=
  inl "malformed"%string.

(** A decoder that accepts exactly the buffers starting with byte 0x0c. *)
Definition decode_0c (t : TMemoryBuffer) : error + jaegerthrift.Batch :=
  match t with
  | Byte.x0c :: _ => inr (jaegerthrift.mkBatch None (Some [span_implicit_parent]))
  | _ => inl "malformed"%string
  end.

(** * Properties *)

(** ** Slices and index loops *)
Lemma len_zero_iff {A : Type} (s : slice A) :
  (len s =? 0) = true <-> elems s = [].
Proof.
  unfold len. rewrite Z.eqb_eq.
  destruct (elems s) as [|x l]; simpl; split; intros H; try reflexivity;
    try discriminate; lia.
Qed.

Lemma store_app_here {B : Type} (pre post : list B) (old v : B) :
  store (pre ++ old :: post) (List.length pre) v = pre ++ v :: post.
Proof.
  induction pre as [|b pre IH]; simpl.
  - reflexivity.
  - now rewrite IH.
Qed.

(** The loop entered at index [length done] overwrites exactly the
    remaining zero values, in order. *)
Lemma range_store_from {A B : Type} (f : A -> B) (zero : B) (l : list A) :
  forall done : list B,
    range_store f l (List.length done) (done ++ make zero (List.length l))
    = done ++ map f l.
Proof.
  induction l as [|x l IH]; intros done; simpl.
  - reflexivity.
  - rewrite store_app_here.
    replace (done ++ f x :: make zero (List.length l))
      with ((done ++ [f x]) ++ make zero (List.length l))
      by (rewrite <- app_assoc; reflexivity).
    replace (S (List.length done)) with (List.length (done ++ [f x]))
      by (rewrite length_app; simpl; lia).
    rewrite IH, <- app_assoc. reflexivity.
Qed.

Lemma range_store_map {A B : Type} (f : A -> B) (zero : B) (l : list A) :
  range_store f l 0 (make zero (List.length l)) = map f l.
Proof. exact (range_store_from f zero l []). Qed.

Lemma convertTags_nonempty (tags : slice jaegerthrift.Tag) :
  elems tags <> [] -> convertTags tags = Some (map convertTag (elems tags)).
Proof.
  intros Hne. unfold convertTags.
  destruct (len tags =? 0) eqn:E.
  - apply len_zero_iff in E. contradiction.
  - now rewrite range_store_map.
Qed.

Lemma convertTags_empty (tags : slice jaegerthrift.Tag) :
  elems tags = [] -> convertTags tags = None.
Proof.
  intros He. unfold convertTags.
  apply len_zero_iff in He. now rewrite He.
Qed.

Lemma convertLogs_nonempty (logs : slice jaegerthrift.Log) :
  elems logs <> [] -> convertLogs logs = Some (map convertLog (elems logs)).
Proof.
  intros Hne. unfold convertLogs.
  destruct (len logs =? 0) eqn:E.
  - apply len_zero_iff in E. contradiction.
  - now rewrite range_store_map.
Qed.

Lemma convertLogs_empty (logs : slice jaegerthrift.Log) :
  elems logs = [] -> convertLogs logs = None.
Proof.
  intros He. unfold convertLogs.
  apply len_zero_iff in He. now rewrite He.
Qed.

Lemma elems_convertLogs (logs : slice jaegerthrift.Log) :
  elems (convertLogs logs) = map convertLog (elems logs).
Proof.
  destruct (elems logs) as [|l ls] eqn:E.
  - now rewrite convertLogs_empty.
  - rewrite convertLogs_nonempty by (rewrite E; discriminate).
    now rewrite E.
Qed.

(** ** References *)

Lemma elems_append_refs (rs : list jaegerthrift.SpanRef) :
  forall refs : slice v1.SpanRef,
    elems (append_refs refs rs) = elems refs ++ map convertSpanRef rs.
Proof.
  unfold append_refs.
  induction rs as [|r rs IH]; intros refs; simpl.
  - now rewrite app_nil_r.
  - rewrite IH. unfold append. simpl. now rewrite <- app_assoc.
Qed.

Lemma SpanRefType_eqb_eq (a b : v1.SpanRefType) :
  v1.SpanRefType_eqb a b = true <-> a = b.
Proof. destruct a, b; simpl; split; intros H; congruence. Qed.

Lemma alreadyPresent_true_iff (parent : Z) (refs : list v1.SpanRef) :
  alreadyPresent parent refs = true <->
  (exists ref, In ref refs /\ v1.RefType ref = v1.SpanRefType_CHILD_OF /\
               v1.ref_SpanID ref = Int.uint64 parent).
Proof.
  induction refs as [|ref rest IH]; simpl.
  - split; [discriminate | intros (x & [] & _)].
  - destruct (v1.SpanRefType_eqb (v1.RefType ref) v1.SpanRefType_CHILD_OF
              && (v1.ref_SpanID ref =? Int.uint64 parent)) eqn:E.
    + apply andb_true_iff in E as [Ht Hi].
      apply SpanRefType_eqb_eq in Ht. apply Z.eqb_eq in Hi.
      split; [intros _; exists ref; auto | reflexivity].
    + rewrite IH. split.
      * intros (x & Hin & Hx). exists x. auto.
      * intros (x & [<- | Hin] & Ht & Hi).
        -- rewrite Ht, Hi, Z.eqb_refl in E. discriminate.
        -- exists x. auto.
Qed.

(** The reference list of the converted span, by cases on the parent id. *)
Lemma convertSpan_refs_cases (s : jaegerthrift.Span) :
  exists c, convertSpan s = Some c /\
    v1.span_TraceID c =
      v1.mkTraceID (Int.uint64 (jaegerthrift.TraceIdLow s))
                   (Int.uint64 (jaegerthrift.TraceIdHigh s)) /\
    elems (v1.References c) =
      let explicit := map convertSpanRef (elems (jaegerthrift.References s)) in
      if (jaegerthrift.ParentSpanId s =? 0)
         || alreadyPresent (jaegerthrift.ParentSpanId s) explicit
      then explicit
      else explicit ++
           [v1.mkSpanRef (v1.span_TraceID c)
              (Int.uint64 (jaegerthrift.ParentSpanId s))
              v1.SpanRefType_CHILD_OF].
Proof.
  unfold convertSpan. eexists. split; [reflexivity|]. simpl.
  split; [reflexivity|].
  rewrite !elems_append_refs. simpl.
  destruct (jaegerthrift.ParentSpanId s =? 0); simpl.
  - now rewrite elems_append_refs.
  - destruct (alreadyPresent _ _); simpl.
    + now rewrite elems_append_refs.
    + now rewrite elems_append_refs.
Qed.

(** ** Agreement with the unit tests of the package *)

Example TestConvertTag_string :
  convertTag
    (jaegerthrift.mkTag "k" jaegerthrift.TagType_STRING (Some "v"%string)
       None None None None)
  = v1.mkKeyValue "k" v1.ValueType_STRING "v" false 0 PrimFloat.zero None.
Proof. reflexivity. Qed.

Example TestConvertTag_bool :
  convertTag
    (jaegerthrift.mkTag "k" jaegerthrift.TagType_BOOL None None (Some true)
       None None)
  = v1.mkKeyValue "k" v1.ValueType_BOOL EmptyString true 0 PrimFloat.zero None.
Proof. reflexivity. Qed.

Example TestConvertTag_binary :
  convertTag
    (jaegerthrift.mkTag "k" jaegerthrift.TagType_BINARY None None None None
       (Some [Byte.x01; Byte.x02; Byte.x03]))
  = v1.mkKeyValue "k" v1.ValueType_BINARY EmptyString false 0 PrimFloat.zero
      (Some [Byte.x01; Byte.x02; Byte.x03]).
Proof. reflexivity. Qed.

Example TestConvertSpan_BasicFields :
  exists c,
    convertSpan
      (jaegerthrift.mkSpan 0x1234567890ABCDEF 0x1122334455667788
         0x0102030405060708 0 "op" None 1 1000000 500000 None None)
    = Some c /\
    v1.span_TraceID c = v1.mkTraceID 0x1234567890ABCDEF 0x1122334455667788 /\
    v1.SpanID c = 0x0102030405060708 /\
    v1.OperationName c = "op"%string /\
    v1.Flags c = 1 /\
    v1.StartTime c = time.Unix 0 1000000000 /\
    v1.Duration c = 500000 * time.Microsecond.
Proof. eexists. split; [reflexivity|]. repeat split. Qed.

Example TestConvertSpan_ParentSpanId_CreatesChildOfReference :
  exists c,
    convertSpan span_implicit_parent = Some c /\
    v1.References c
    = Some [v1.mkSpanRef (v1.mkTraceID 1 0) 1 v1.SpanRefType_CHILD_OF].
Proof. eexists. split; reflexivity. Qed.

Example TestConvertSpan_NoParentSpanId_NoReferences :
  exists c,
    convertSpan (jaegerthrift.mkSpan 1 0 2 0 EmptyString None 0 0 100 None None)
    = Some c /\
    elems (v1.References c) = [].
Proof. eexists. split; reflexivity. Qed.

Example TestConvertSpan_ParentAlreadyInReferences_NoDuplicate :
  exists c,
    convertSpan
      (jaegerthrift.mkSpan 1 0 3 2 EmptyString
         (Some [jaegerthrift.mkSpanRef jaegerthrift.SpanRefType_CHILD_OF 1 0 2])
         0 0 100 None None)
    = Some c /\
    List.length (elems (v1.References c)) = 1%nat.
Proof. eexists. split; reflexivity. Qed.

Example TestConvertProcess_NilProcess :
  convertProcess None = Some (v1.mkProcess EmptyString None).
Proof. reflexivity. Qed.

(** ** The statements of the specification *)

(** C1. For a legacy span [s] with a non-zero parent span id whose converted
    explicit references contain a CHILD_OF entry [ref] carrying that parent
    span id, [convertSpan s] yields exactly the converted explicit
    references, with nothing appended.  Nothing is asked of the trace id of
    [ref]: the entry is matched on reference type and span id alone. *)
Theorem convertSpan_parent_suppressed
    (s : jaegerthrift.Span) (ref : v1.SpanRef) :
  jaegerthrift.ParentSpanId s <> 0 ->
  In ref (map convertSpanRef (elems (jaegerthrift.References s))) ->
  v1.RefType ref = v1.SpanRefType_CHILD_OF ->
  v1.ref_SpanID ref = Int.uint64 (jaegerthrift.ParentSpanId s) ->
  exists c, convertSpan s = Some c /\
    elems (v1.References c)
    = map convertSpanRef (elems (jaegerthrift.References s)).
Proof.
  intros Hp Hin Ht Hi.
  destruct (convertSpan_refs_cases s) as (c & Hc & _ & Hr).
  exists c. split; [exact Hc|].
  rewrite Hr. cbv zeta.
  replace (alreadyPresent _ _) with true.
  - now rewrite orb_true_r.
  - symmetry. apply alreadyPresent_true_iff. exists ref. auto.
Qed.

Lemma convertSpan_parent_suppressed_witness :
  v1.ref_TraceID (v1.mkSpanRef (v1.mkTraceID 9 9) 2 v1.SpanRefType_CHILD_OF)
    <> v1.mkTraceID 1 0 /\
  exists c, convertSpan span_foreign_parent = Some c /\
    elems (v1.References c)
    = map convertSpanRef (elems (jaegerthrift.References span_foreign_parent)).
Proof.
  split; [discriminate|].
  apply (convertSpan_parent_suppressed span_foreign_parent
           (v1.mkSpanRef (v1.mkTraceID 9 9) 2 v1.SpanRefType_CHILD_OF)).
  - discriminate.
  - left. reflexivity.
  - reflexivity.
  - reflexivity.
Defined.

(** C2. With a zero parent span id the converted span carries exactly the
    converted explicit references, in order.  With a non-zero parent span id
    that no converted explicit CHILD_OF reference carries, it carries them
    followed by one more entry, last: CHILD_OF, the parent span id, and the
    trace id of the span itself. *)
Theorem convertSpan_references (s : jaegerthrift.Span) :
  exists c, convertSpan s = Some c /\
    let explicit := map convertSpanRef (elems (jaegerthrift.References s)) in
    (jaegerthrift.ParentSpanId s = 0 ->
       elems (v1.References c) = explicit) /\
    (jaegerthrift.ParentSpanId s <> 0 ->
     (forall ref, In ref explicit ->
        ~ (v1.RefType ref = v1.SpanRefType_CHILD_OF /\
           v1.ref_SpanID ref = Int.uint64 (jaegerthrift.ParentSpanId s))) ->
     elems (v1.References c)
     = explicit ++
       [v1.mkSpanRef (v1.span_TraceID c)
          (Int.uint64 (jaegerthrift.ParentSpanId s))
          v1.SpanRefType_CHILD_OF] /\
     v1.span_TraceID c
     = v1.mkTraceID (Int.uint64 (jaegerthrift.TraceIdLow s))
                    (Int.uint64 (jaegerthrift.TraceIdHigh s))).
Proof.
  destruct (convertSpan_refs_cases s) as (c & Hc & Hid & Hr).
  exists c. split; [exact Hc|]. cbv zeta in *. split.
  - intros H0. rewrite Hr, H0. reflexivity.
  - intros Hp Hnone. split; [|exact Hid].
    rewrite Hr.
    destruct (jaegerthrift.ParentSpanId s =? 0) eqn:E0.
    + apply Z.eqb_eq in E0. contradiction.
    + destruct (alreadyPresent _ _) eqn:Ea; [|reflexivity].
      apply alreadyPresent_true_iff in Ea as (ref & Hin & Ht & Hi).
      exfalso. apply (Hnone ref Hin). auto.
Qed.

Lemma convertSpan_references_witness :
  exists c, convertSpan span_implicit_parent = Some c /\
    elems (v1.References c)
    = [v1.mkSpanRef (v1.mkTraceID 1 0) 1 v1.SpanRefType_CHILD_OF].
Proof.
  destruct (convertSpan_references span_implicit_parent)
    as (c & Hc & _ & Happ).
  exists c. split; [exact Hc|].
  destruct Happ as [Hr Hid].
  - discriminate.
  - intros ref [].
  - rewrite Hr, Hid. reflexivity.
Defined.

(** C3. The converted reference is FOLLOWS_FROM exactly when the legacy
    discriminator is FOLLOWS_FROM; for every other discriminator, CHILD_OF
    and values that no constant names included, it is CHILD_OF. *)
Theorem convertSpanRef_RefType (r : jaegerthrift.SpanRef) :
  (v1.RefType (convertSpanRef r) = v1.SpanRefType_FOLLOWS_FROM <->
   jaegerthrift.RefType r = jaegerthrift.SpanRefType_FOLLOWS_FROM) /\
  (jaegerthrift.RefType r <> jaegerthrift.SpanRefType_FOLLOWS_FROM ->
   v1.RefType (convertSpanRef r) = v1.SpanRefType_CHILD_OF).
Proof.
  unfold convertSpanRef. simpl.
  destruct (jaegerthrift.RefType r =? jaegerthrift.SpanRefType_FOLLOWS_FROM)
    eqn:E.
  - apply Z.eqb_eq in E. repeat split; auto. intros H. contradiction.
  - apply Z.eqb_neq in E. repeat split; auto; intros H;
      [discriminate | contradiction].
Qed.

Lemma convertSpanRef_RefType_witness :
  v1.RefType (convertSpanRef (jaegerthrift.mkSpanRef 42 1 0 2))
  = v1.SpanRefType_CHILD_OF /\
  v1.RefType
    (convertSpanRef
       (jaegerthrift.mkSpanRef jaegerthrift.SpanRefType_FOLLOWS_FROM 1 0 2))
  = v1.SpanRefType_FOLLOWS_FROM.
Proof.
  split.
  - apply (convertSpanRef_RefType (jaegerthrift.mkSpanRef 42 1 0 2)).
    discriminate.
  - apply (convertSpanRef_RefType
             (jaegerthrift.mkSpanRef jaegerthrift.SpanRefType_FOLLOWS_FROM 1 0 2)).
    reflexivity.
Defined.

(** C4, as the specification's data model words it, fails: a reference whose
    discriminator is neither CHILD_OF nor FOLLOWS_FROM is not converted to
    FOLLOWS_FROM. *)
Lemma convertSpanRef_unknown_not_FOLLOWS_FROM :
  let r := jaegerthrift.mkSpanRef 7 1 0 2 in
  jaegerthrift.RefType r <> jaegerthrift.SpanRefType_CHILD_OF /\
  jaegerthrift.RefType r <> jaegerthrift.SpanRefType_FOLLOWS_FROM /\
  v1.RefType (convertSpanRef r) <> v1.SpanRefType_FOLLOWS_FROM.
Proof. cbv zeta. repeat split; discriminate. Qed.

(** C4, amended. A reference whose discriminator is neither CHILD_OF nor
    FOLLOWS_FROM is converted to a CHILD_OF reference. *)
Theorem convertSpanRef_unknown_CHILD_OF (r : jaegerthrift.SpanRef) :
  jaegerthrift.RefType r <> jaegerthrift.SpanRefType_CHILD_OF ->
  jaegerthrift.RefType r <> jaegerthrift.SpanRefType_FOLLOWS_FROM ->
  v1.RefType (convertSpanRef r) = v1.SpanRefType_CHILD_OF.
Proof.
  intros _ Hff. unfold convertSpanRef. simpl.
  apply Z.eqb_neq in Hff. now rewrite Hff.
Qed.

Lemma convertSpanRef_unknown_CHILD_OF_witness :
  v1.RefType (convertSpanRef (jaegerthrift.mkSpanRef 7 1 0 2))
  = v1.SpanRefType_CHILD_OF.
Proof.
  apply (convertSpanRef_unknown_CHILD_OF (jaegerthrift.mkSpanRef 7 1 0 2));
    discriminate.
Defined.

(** C5. [convertTag] copies the key and follows the mapping table: BOOL,
    LONG, DOUBLE and BINARY select the canonical type of the same kind with
    the payload of the matching slot (the zero value when a scalar slot is
    unset, the byte slice as it is, nil included); STRING and every other
    discriminator select STRING with the string slot.  All the payload
    fields that the discriminator does not select hold their zero value.
    The function has no failing case: it is defined on every tag. *)
Theorem convertTag_table (t : jaegerthrift.Tag) :
  v1.Key (convertTag t) = jaegerthrift.Key t /\
  (jaegerthrift.VType t = jaegerthrift.TagType_BOOL ->
   convertTag t =
   v1.mkKeyValue (jaegerthrift.Key t) v1.ValueType_BOOL
     EmptyString (slot_or false (jaegerthrift.VBool t)) 0 PrimFloat.zero None) /\
  (jaegerthrift.VType t = jaegerthrift.TagType_LONG ->
   convertTag t =
   v1.mkKeyValue (jaegerthrift.Key t) v1.ValueType_INT64
     EmptyString false (slot_or 0 (jaegerthrift.VLong t)) PrimFloat.zero None) /\
  (jaegerthrift.VType t = jaegerthrift.TagType_DOUBLE ->
   convertTag t =
   v1.mkKeyValue (jaegerthrift.Key t) v1.ValueType_FLOAT64
     EmptyString false 0 (slot_or PrimFloat.zero (jaegerthrift.VDouble t)) None) /\
  (jaegerthrift.VType t = jaegerthrift.TagType_BINARY ->
   convertTag t =
   v1.mkKeyValue (jaegerthrift.Key t) v1.ValueType_BINARY
     EmptyString false 0 PrimFloat.zero (jaegerthrift.VBinary t)) /\
  (jaegerthrift.VType t = jaegerthrift.TagType_STRING \/
   (jaegerthrift.VType t <> jaegerthrift.TagType_BOOL /\
    jaegerthrift.VType t <> jaegerthrift.TagType_LONG /\
    jaegerthrift.VType t <> jaegerthrift.TagType_DOUBLE /\
    jaegerthrift.VType t <> jaegerthrift.TagType_BINARY) ->
   convertTag t =
   v1.mkKeyValue (jaegerthrift.Key t) v1.ValueType_STRING
     (slot_or EmptyString (jaegerthrift.VStr t)) false 0 PrimFloat.zero None).
Proof.
  destruct t as [k ty vs vd vb vl vbin]. unfold convertTag. simpl.
  split.
  { destruct (ty =? jaegerthrift.TagType_BOOL);
      [destruct vb; reflexivity|].
    destruct (ty =? jaegerthrift.TagType_LONG);
      [destruct vl; reflexivity|].
    destruct (ty =? jaegerthrift.TagType_DOUBLE);
      [destruct vd; reflexivity|].
    destruct (ty =? jaegerthrift.TagType_BINARY); [reflexivity|].
    destruct vs; reflexivity. }
  repeat split.
  - intros ->. destruct vb; reflexivity.
  - intros ->. destruct vl; reflexivity.
  - intros ->. destruct vd; reflexivity.
  - intros ->. reflexivity.
  - intros [-> | (Hb & Hl & Hd & Hbin)].
    + destruct vs; reflexivity.
    + apply Z.eqb_neq in Hb, Hl, Hd, Hbin.
      rewrite Hb, Hl, Hd, Hbin. destruct vs; reflexivity.
Qed.

Lemma convertTag_table_witness :
  convertTag
    (jaegerthrift.mkTag "k" jaegerthrift.TagType_LONG None None None (Some 42) None)
  = v1.mkKeyValue "k" v1.ValueType_INT64 EmptyString false 42 PrimFloat.zero None /\
  convertTag (jaegerthrift.mkTag "k" 99 (Some "v"%string) None (Some true) None None)
  = v1.mkKeyValue "k" v1.ValueType_STRING "v" false 0 PrimFloat.zero None /\
  convertTag
    (jaegerthrift.mkTag "k" jaegerthrift.TagType_BOOL None None None (Some 42) None)
  = v1.mkKeyValue "k" v1.ValueType_BOOL EmptyString false 0 PrimFloat.zero None.
Proof.
  split; [|split].
  - apply (convertTag_table
             (jaegerthrift.mkTag "k" jaegerthrift.TagType_LONG
                None None None (Some 42) None)).
    reflexivity.
  - apply (convertTag_table
             (jaegerthrift.mkTag "k" 99 (Some "v"%string) None (Some true)
                None None)).
    right. repeat split; discriminate.
  - apply (convertTag_table
             (jaegerthrift.mkTag "k" jaegerthrift.TagType_BOOL
                None None None (Some 42) None)).
    reflexivity.
Defined.

(** ** Time values *)

Lemma wrap_int64_in_range (z : Z) : Int.int64_range z -> Int.wrap_int64 z = z.
Proof.
  unfold Int.int64_range, Int.wrap_int64. intros H.
  rewrite Z.mod_small; lia.
Qed.

(** [time.Unix(0, n)] is the instant [n] nanoseconds after the epoch, with a
    nanosecond field within the second. *)
Lemma since_epoch_Unix (n : Z) : time.since_epoch (time.Unix 0 n) = n.
Proof.
  unfold time.since_epoch, time.Unix.
  destruct ((n <? 0) || (n >=? 1000000000)).
  - cbv zeta.
    destruct (n - Z.quot n 1000000000 * 1000000000 <? 0);
      cbn [time.sec time.nsec]; lia.
  - cbn [time.sec time.nsec]. lia.
Qed.

Lemma nsec_Unix (n : Z) : 0 <= time.nsec (time.Unix 0 n) < 1000000000.
Proof.
  unfold time.Unix.
  destruct ((n <? 0) || (n >=? 1000000000)) eqn:E.
  - cbv zeta.
    pose proof (Z.quot_rem' n 1000000000) as Hq.
    replace (n - Z.quot n 1000000000 * 1000000000) with (Z.rem n 1000000000)
      by lia.
    destruct (Z.rem n 1000000000 <? 0) eqn:En; cbn [time.nsec].
    + apply Z.ltb_lt in En.
      pose proof (Z.rem_bound_abs n 1000000000 ltac:(lia)). lia.
    + apply Z.ltb_ge in En.
      pose proof (Z.rem_bound_abs n 1000000000 ltac:(lia)). lia.
  - cbn [time.nsec].
    apply orb_false_iff in E as [E1 E2].
    apply Z.ltb_ge in E1. rewrite Z.geb_leb in E2. apply Z.leb_gt in E2. lia.
Qed.

(** C6, as stated, fails: the product with the microsecond constant is taken
    on [int64], so a value whose product with 1000 leaves the [int64] range
    does not convert to that product.  The span below carries the first
    such microsecond count as start time, duration and log timestamp. *)
Lemma time_conversion_overflow :
  let v := 9223372036854776 in
  let s := jaegerthrift.mkSpan 1 0 2 0 EmptyString None 0 v v None
             (Some [jaegerthrift.mkLog v None]) in
  jaegerthrift.Span_wf s /\
  exists c l,
    convertSpan s = Some c /\
    elems (v1.Logs c) = [l] /\
    time.since_epoch (v1.StartTime c) <> v * 1000 /\
    v1.Duration c <> v * 1000 /\
    time.since_epoch (v1.Timestamp l) <> v * 1000.
Proof.
  cbv zeta. split.
  - unfold jaegerthrift.Span_wf, Int.int64_range, Int.int32_range. simpl. lia.
  - eexists. eexists. split; [reflexivity|].
    split; [reflexivity|].
    repeat split; vm_compute; discriminate.
Qed.

(** C6, amended. A legacy microsecond value [v] whose product [v * 1000]
    lies in the [int64] range converts to [v * 1000] nanoseconds: the start
    time and each log timestamp become the instant [v * 1000] nanoseconds
    after the Unix epoch, and the duration becomes [v * 1000] nanosecond
    units. *)
Theorem time_conversion_in_range (s : jaegerthrift.Span) :
  exists c, convertSpan s = Some c /\
    (Int.int64_range (jaegerthrift.StartTime s * 1000) ->
     time.since_epoch (v1.StartTime c) = jaegerthrift.StartTime s * 1000) /\
    (Int.int64_range (jaegerthrift.Duration s * 1000) ->
     v1.Duration c = jaegerthrift.Duration s * 1000) /\
    (forall i l,
       nth_error (elems (jaegerthrift.Logs s)) i = Some l ->
       Int.int64_range (jaegerthrift.Timestamp l * 1000) ->
       exists l',
         nth_error (elems (v1.Logs c)) i = Some l' /\
         time.since_epoch (v1.Timestamp l') = jaegerthrift.Timestamp l * 1000).
Proof.
  unfold convertSpan. eexists. split; [reflexivity|].
  cbn [v1.StartTime v1.Duration v1.Logs].
  unfold Int.mul_int64. change time.Microsecond with 1000.
  split; [|split].
  - intros H. rewrite since_epoch_Unix. now apply wrap_int64_in_range.
  - intros H. now apply wrap_int64_in_range.
  - intros i l Hl H. exists (convertLog l). split.
    + rewrite elems_convertLogs. now apply map_nth_error.
    + unfold convertLog, Int.mul_int64. cbn [v1.Timestamp].
      change time.Microsecond with 1000. rewrite since_epoch_Unix.
      now apply wrap_int64_in_range.
Qed.

Lemma time_conversion_in_range_witness :
  exists c, convertSpan span_one_second = Some c /\
    time.since_epoch (v1.StartTime c) = 1000000000 /\
    v1.Duration c = 500000000 /\
    exists l', nth_error (elems (v1.Logs c)) 0 = Some l' /\
               time.since_epoch (v1.Timestamp l') = 1000000.
Proof.
  destruct (time_conversion_in_range span_one_second)
    as (c & Hc & Hstart & Hdur & Hlog).
  exists c. split; [exact Hc|]. split; [|split].
  - apply Hstart. unfold Int.int64_range. simpl. lia.
  - apply Hdur. unfold Int.int64_range. simpl. lia.
  - apply (Hlog 0%nat (jaegerthrift.mkLog 1000 None)).
    + reflexivity.
    + unfold Int.int64_range. simpl. lia.
Defined.

(** C7. [convertTags] returns the nil slice for a nil and for a zero-length
    input alike, and for any other input the images of its elements under
    [convertTag], in the same order and number.  [convertLogs] does the
    same with the conversion of one log entry. *)
Theorem convertTags_convertLogs_lists :
  (convertTags None = None /\
   convertTags (Some []) = None /\
   (forall tags, elems tags <> [] ->
      convertTags tags = Some (map convertTag (elems tags))) /\
   (forall tags,
      List.length (elems (convertTags tags)) = List.length (elems tags))) /\
  (convertLogs None = None /\
   convertLogs (Some []) = None /\
   (forall logs, elems logs <> [] ->
      convertLogs logs = Some (map convertLog (elems logs))) /\
   (forall logs,
      List.length (elems (convertLogs logs)) = List.length (elems logs))).
Proof.
  split; (split; [reflexivity|]); (split; [reflexivity|]); split.
  - exact convertTags_nonempty.
  - intros tags. destruct (elems tags) as [|t ts] eqn:E.
    + now rewrite convertTags_empty.
    + rewrite convertTags_nonempty by (rewrite E; discriminate).
      simpl. now rewrite length_map, E.
  - exact convertLogs_nonempty.
  - intros logs. now rewrite elems_convertLogs, length_map.
Qed.

Lemma convertTags_convertLogs_lists_witness :
  convertTags
    (Some [jaegerthrift.mkTag "a" jaegerthrift.TagType_BOOL None None
             (Some true) None None;
           jaegerthrift.mkTag "b" jaegerthrift.TagType_STRING (Some "x"%string)
             None None None None])
  = Some [v1.mkKeyValue "a" v1.ValueType_BOOL EmptyString true 0
            PrimFloat.zero None;
          v1.mkKeyValue "b" v1.ValueType_STRING "x" false 0
            PrimFloat.zero None].
Proof.
  destruct convertTags_convertLogs_lists as [(_ & _ & Hne & _) _].
  rewrite Hne; [reflexivity | discriminate].
Defined.

(** C8. [convertProcess] always returns a non-nil pointer: for a nil input,
    to a process with the empty service name and the nil tag slice; for a
    present input, to a process with the same service name and the tags
    [convertTags] gives. *)
Theorem convertProcess_present :
  (forall p, exists c, convertProcess p = Some c) /\
  convertProcess None = Some (v1.mkProcess EmptyString None) /\
  (forall p,
     convertProcess (Some p)
     = Some (v1.mkProcess (jaegerthrift.ServiceName p)
               (convertTags (jaegerthrift.proc_Tags p)))).
Proof.
  split; [|split].
  - intros [p|]; simpl; eexists; reflexivity.
  - reflexivity.
  - reflexivity.
Qed.

(** ** Identifiers *)

Lemma uint64_same_bits (x : Z) : same_bits64 x (Int.uint64 x).
Proof.
  unfold same_bits64, Int.uint64_range, Int.uint64. split.
  - apply Z.mod_pos_bound. lia.
  - intros i Hi. apply Z.mod_pow2_bits_low. lia.
Qed.

(** The bit pattern fixes the unsigned value. *)
Lemma same_bits64_unique (x u : Z) : same_bits64 x u -> u = Int.uint64 x.
Proof.
  intros [Hr Hb]. unfold Int.uint64_range in Hr. unfold Int.uint64.
  apply Z.bits_inj'. intros i Hi.
  destruct (Z.lt_ge_cases i 64) as [Hlt | Hge].
  - rewrite Z.mod_pow2_bits_low by lia. apply Hb. lia.
  - rewrite Z.mod_pow2_bits_high by lia.
    rewrite <- (Z.mod_small u (2 ^ 64)) by lia.
    apply Z.mod_pow2_bits_high. lia.
Qed.

Lemma uint64_of_int64 (x : Z) :
  Int.int64_range x ->
  (0 <= x -> Int.uint64 x = x) /\ (x < 0 -> Int.uint64 x = x + 2 ^ 64).
Proof.
  unfold Int.int64_range, Int.uint64. intros H. split; intros Hs.
  - apply Z.mod_small. lia.
  - symmetry. apply (Z.mod_unique_pos (x) (2 ^ 64) (-1)); lia.
Qed.

(** C9. The trace id halves and the span id of a converted span, and of a
    converted reference, are unsigned 64-bit values with the bit pattern of
    the signed legacy fields.  The number itself is kept for a non-negative
    field only: a negative field [x] yields [x + 2^64]. *)
Theorem ids_copied_bit_for_bit :
  (forall s, exists c, convertSpan s = Some c /\
     same_bits64 (jaegerthrift.TraceIdHigh s) (v1.High (v1.span_TraceID c)) /\
     same_bits64 (jaegerthrift.TraceIdLow s) (v1.Low (v1.span_TraceID c)) /\
     same_bits64 (jaegerthrift.SpanId s) (v1.SpanID c)) /\
  (forall r,
     same_bits64 (jaegerthrift.ref_TraceIdHigh r)
       (v1.High (v1.ref_TraceID (convertSpanRef r))) /\
     same_bits64 (jaegerthrift.ref_TraceIdLow r)
       (v1.Low (v1.ref_TraceID (convertSpanRef r))) /\
     same_bits64 (jaegerthrift.ref_SpanId r) (v1.ref_SpanID (convertSpanRef r))) /\
  (forall x u, Int.int64_range x -> same_bits64 x u ->
     (0 <= x -> u = x) /\ (x < 0 -> u = x + 2 ^ 64 /\ u <> x)).
Proof.
  split; [|split].
  - intros s. unfold convertSpan. eexists. split; [reflexivity|].
    cbn [v1.span_TraceID v1.High v1.Low v1.SpanID].
    repeat split; apply uint64_same_bits.
  - intros r. unfold convertSpanRef.
    cbn [v1.ref_TraceID v1.High v1.Low v1.ref_SpanID].
    repeat split; apply uint64_same_bits.
  - intros x u Hx Hu. apply same_bits64_unique in Hu. subst u.
    destruct (uint64_of_int64 x Hx) as [Hpos Hneg]. split.
    + exact Hpos.
    + intros Hlt. rewrite (Hneg Hlt). split; lia.
Qed.

Lemma ids_copied_bit_for_bit_witness :
  v1.ref_SpanID (convertSpanRef (jaegerthrift.mkSpanRef 0 1 0 (-1)))
  = 18446744073709551615.
Proof.
  destruct ids_copied_bit_for_bit as (_ & Href & Hval).
  destruct (Href (jaegerthrift.mkSpanRef 0 1 0 (-1))) as (_ & _ & Hid).
  cbn [jaegerthrift.ref_SpanId] in Hid.
  destruct (Hval (-1) _ ltac:(unfold Int.int64_range; lia) Hid) as [_ Hneg].
  destruct (Hneg ltac:(lia)) as [Heq _].
  exact Heq.
Defined.

(** ** The handler *)

(** Splits a conjunction of case statements and closes the cases whose
    premises contradict each other or the case at hand. *)
Ltac status_cases :=
  repeat split; intros;
  repeat match goal with
         | H : _ /\ _ |- _ => destruct H
         | H : exists _, _ |- _ => destruct H
         | H : _ \/ _ |- _ => destruct H
         end;
  unfold http.StatusAccepted, http.StatusBadRequest,
    http.StatusMethodNotAllowed, http.StatusInternalServerError in *;
  try congruence; try contradiction; try discriminate.

Section HandlerProperties.

Variable Batch_Read : TMemoryBuffer -> error + jaegerthrift.Batch.
Variable PostSpans : PostSpansRequest -> option error.

Lemma statuses_HandleTraces (r : http.Request) (w : effects) :
  statuses (HandleTraces Batch_Read PostSpans r w)
  = statuses w ++ [expected_status Batch_Read PostSpans r].
Proof.
  unfold HandleTraces, expected_status, submitted, io_ReadAll,
    TMemoryBuffer_Write, NewTMemoryBuffer.
  destruct (negb (String.eqb (http.Method r) http.MethodPost));
    [reflexivity|].
  destruct (http.read_err (http.body r)) as [e|]; [reflexivity|].
  destruct (http.read_data (http.body r)) as [|b data].
  - destruct (http.close_err (http.body r)); reflexivity.
  - cbn [List.length Z.eqb Z.of_nat snd app].
    destruct (Batch_Read (b :: data)) as [e|batch].
    + destruct (http.close_err (http.body r)); reflexivity.
    + destruct (PostSpans _);
        destruct (http.close_err (http.body r)); reflexivity.
Qed.

(** C10. The handler passes exactly one status code to [WriteHeader].  It
    is 202 exactly when the method is POST, the body is read without
    error and is not empty, the batch decodes and the submission returns
    no error.  Otherwise it is 405 for another method, 400 for a read
    error, an empty body or a batch that does not decode, and 500 for a
    submission that returns an error. *)
Theorem HandleTraces_status (r : http.Request) :
  exists code,
    statuses (HandleTraces Batch_Read PostSpans r no_effects) = [code] /\
    (code = http.StatusAccepted <->
     http.Method r = http.MethodPost /\
     http.read_err (http.body r) = None /\
     http.read_data (http.body r) <> [] /\
     exists req, submitted Batch_Read r = Some req /\ PostSpans req = None) /\
    (http.Method r <> http.MethodPost ->
     code = http.StatusMethodNotAllowed) /\
    (http.Method r = http.MethodPost ->
     http.read_err (http.body r) <> None \/
     http.read_data (http.body r) = [] \/
     submitted Batch_Read r = None ->
     code = http.StatusBadRequest) /\
    (http.Method r = http.MethodPost ->
     http.read_err (http.body r) = None ->
     http.read_data (http.body r) <> [] ->
     forall req e,
       submitted Batch_Read r = Some req -> PostSpans req = Some e ->
       code = http.StatusInternalServerError).
Proof.
  exists (expected_status Batch_Read PostSpans r).
  split; [apply (statuses_HandleTraces r no_effects)|].
  unfold expected_status.
  destruct (String.eqb_spec (http.Method r) http.MethodPost) as [Hm|Hm];
    cbn [negb]; [|status_cases].
  destruct (http.read_err (http.body r)) as [e|]; [status_cases|].
  destruct (http.read_data (http.body r)) as [|b data]; [status_cases|].
  destruct (submitted Batch_Read r) as [req|]; [|status_cases].
  destruct (PostSpans req) as [e0|] eqn:Ep; status_cases.
  exists req. auto.
Qed.

End HandlerProperties.

Lemma HandleTraces_status_witness :
  statuses (HandleTraces decode_one_span collector_accepts post_one_byte no_effects)
  = [http.StatusAccepted].
Proof.
  destruct (HandleTraces_status decode_one_span collector_accepts post_one_byte)
    as (code & Hs & Hacc & _).
  rewrite Hs. f_equal. apply Hacc.
  split; [reflexivity|]. split; [reflexivity|]. split; [discriminate|].
  eexists. split; reflexivity.
Defined.

(** * Further properties of the bridge *)

(** ** The implicit parent reference, in terms of the legacy span *)

Lemma uint64_inj (x y : Z) :
  Int.int64_range x -> Int.int64_range y ->
  Int.uint64 x = Int.uint64 y -> x = y.
Proof.
  intros Hx Hy Heq.
  destruct (uint64_of_int64 x Hx) as [Hx0 Hx1].
  destruct (uint64_of_int64 y Hy) as [Hy0 Hy1].
  unfold Int.int64_range in *.
  destruct (Z.lt_ge_cases x 0) as [Hxn|Hxp];
    destruct (Z.lt_ge_cases y 0) as [Hyn|Hyp];
    try rewrite (Hx1 Hxn) in Heq; try rewrite (Hx0 Hxp) in Heq;
    try rewrite (Hy1 Hyn) in Heq; try rewrite (Hy0 Hyp) in Heq; lia.
Qed.

Lemma convertSpanRef_CHILD_OF_iff (r : jaegerthrift.SpanRef) :
  v1.RefType (convertSpanRef r) = v1.SpanRefType_CHILD_OF <->
  jaegerthrift.RefType r <> jaegerthrift.SpanRefType_FOLLOWS_FROM.
Proof.
  unfold convertSpanRef. cbn [v1.RefType].
  destruct (jaegerthrift.RefType r =? jaegerthrift.SpanRefType_FOLLOWS_FROM)
    eqn:E.
  - apply Z.eqb_eq in E. split; [discriminate | contradiction].
  - apply Z.eqb_neq in E. split; auto.
Qed.

(** The scan over the converted references finds an entry exactly when a
    legacy reference names the parent. *)
Lemma alreadyPresent_legacy (parent : Z) (rs : list jaegerthrift.SpanRef) :
  Int.int64_range parent ->
  (forall r, In r rs -> Int.int64_range (jaegerthrift.ref_SpanId r)) ->
  alreadyPresent parent (map convertSpanRef rs) = true <->
  (exists r, In r rs /\ names_parent parent r).
Proof.
  intros Hp Hwf. rewrite alreadyPresent_true_iff. split.
  - intros (ref & Hin & Ht & Hi).
    apply in_map_iff in Hin as (r & <- & Hr).
    exists r. split; [exact Hr|]. split.
    + now apply convertSpanRef_CHILD_OF_iff.
    + apply uint64_inj; auto.
  - intros (r & Hr & Hnf & Hid).
    exists (convertSpanRef r). split; [now apply in_map|]. split.
    + now apply convertSpanRef_CHILD_OF_iff.
    + unfold convertSpanRef. cbn [v1.ref_SpanID]. now rewrite Hid.
Qed.

(** X1. For a span whose signed fields are in range, the implicit parent
    reference is appended exactly when the parent span id is non-zero and no
    legacy reference names the parent, where a reference names the parent
    when it carries the parent's span id and any discriminator other than
    FOLLOWS_FROM (a value that no constant names included).  A FOLLOWS_FROM
    reference to the parent does not stand in for it. *)
Theorem implicit_parent_appended_iff (s : jaegerthrift.Span) :
  jaegerthrift.Span_wf s -> refs_wf s ->
  exists c, convertSpan s = Some c /\
    let explicit := map convertSpanRef (elems (jaegerthrift.References s)) in
    ((jaegerthrift.ParentSpanId s <> 0 /\
      forall r, In r (elems (jaegerthrift.References s)) ->
                ~ names_parent (jaegerthrift.ParentSpanId s) r) ->
     elems (v1.References c) = explicit ++ [implicit_parent_ref s]) /\
    ((jaegerthrift.ParentSpanId s = 0 \/
      exists r, In r (elems (jaegerthrift.References s)) /\
                names_parent (jaegerthrift.ParentSpanId s) r) ->
     elems (v1.References c) = explicit).
Proof.
  intros (_ & _ & _ & Hp & _) Hwf.
  destruct (convertSpan_refs_cases s) as (c & Hc & Hid & Hr).
  exists c. split; [exact Hc|]. cbv zeta in *.
  unfold implicit_parent_ref. rewrite <- Hid.
  pose proof (alreadyPresent_legacy (jaegerthrift.ParentSpanId s)
                (elems (jaegerthrift.References s)) Hp Hwf) as Hscan.
  split.
  - intros [Hnz Hnone]. rewrite Hr.
    apply Z.eqb_neq in Hnz. rewrite Hnz. cbn [orb].
    destruct (alreadyPresent _ _) eqn:Ea; [|reflexivity].
    exfalso. destruct Hscan as [Hfind _].
    destruct (Hfind eq_refl) as (r & Hin & Hn). exact (Hnone r Hin Hn).
  - intros [Hz | Hex]; rewrite Hr.
    + rewrite Hz. reflexivity.
    + destruct Hscan as [_ Hfound]. rewrite (Hfound Hex).
      now rewrite orb_true_r.
Qed.

Lemma implicit_parent_appended_iff_witness :
  (exists c, convertSpan span_unknown_ref_parent = Some c /\
     elems (v1.References c)
     = [v1.mkSpanRef (v1.mkTraceID 1 0) 2 v1.SpanRefType_CHILD_OF]) /\
  (exists c, convertSpan span_follows_parent = Some c /\
     elems (v1.References c)
     = [v1.mkSpanRef (v1.mkTraceID 1 0) 2 v1.SpanRefType_FOLLOWS_FROM;
        v1.mkSpanRef (v1.mkTraceID 1 0) 2 v1.SpanRefType_CHILD_OF]).
Proof.
  assert (Hwf : forall refs,
             jaegerthrift.Span_wf
               (jaegerthrift.mkSpan 1 0 3 2 EmptyString refs 0 0 100 None None)).
  { intros refs. unfold jaegerthrift.Span_wf, Int.int64_range, Int.int32_range.
    simpl. lia. }
  split.
  - destruct (implicit_parent_appended_iff span_unknown_ref_parent)
      as (c & Hc & _ & Hkeep).
    + apply Hwf.
    + intros r [<- | []]. unfold Int.int64_range. simpl. lia.
    + exists c. split; [exact Hc|]. rewrite Hkeep; [reflexivity|].
      right. exists (jaegerthrift.mkSpanRef 7 1 0 2).
      split; [left; reflexivity|]. split; [discriminate | reflexivity].
  - destruct (implicit_parent_appended_iff span_follows_parent)
      as (c & Hc & Happ & _).
    + apply Hwf.
    + intros r [<- | []]. unfold Int.int64_range. simpl. lia.
    + exists c. split; [exact Hc|]. rewrite Happ; [reflexivity|].
      split; [discriminate|].
      intros r [<- | []] [Hnf _]. apply Hnf. reflexivity.
Defined.

(** X2. A converted span with a non-zero parent span id always carries a
    CHILD_OF reference with the parent's span id, whether an explicit one or
    the synthesized one: the scan of the converter, run again on its output,
    finds it. *)
Theorem parent_always_referenced (s : jaegerthrift.Span) :
  jaegerthrift.ParentSpanId s <> 0 ->
  exists c, convertSpan s = Some c /\
    alreadyPresent (jaegerthrift.ParentSpanId s) (elems (v1.References c)) = true /\
    exists ref, In ref (elems (v1.References c)) /\
      v1.RefType ref = v1.SpanRefType_CHILD_OF /\
      v1.ref_SpanID ref = Int.uint64 (jaegerthrift.ParentSpanId s).
Proof.
  intros Hnz.
  destruct (convertSpan_refs_cases s) as (c & Hc & _ & Hr).
  exists c. split; [exact Hc|].
  assert (Hex : exists ref, In ref (elems (v1.References c)) /\
            v1.RefType ref = v1.SpanRefType_CHILD_OF /\
            v1.ref_SpanID ref = Int.uint64 (jaegerthrift.ParentSpanId s)).
  { rewrite Hr. cbv zeta. apply Z.eqb_neq in Hnz. rewrite Hnz. cbn [orb].
    destruct (alreadyPresent _ _) eqn:Ea.
    - now apply alreadyPresent_true_iff.
    - eexists. split; [apply in_or_app; right; left; reflexivity|].
      split; reflexivity. }
  split; [|exact Hex]. now apply alreadyPresent_true_iff.
Qed.

Lemma parent_always_referenced_witness :
  exists c, convertSpan span_follows_parent = Some c /\
    alreadyPresent 2 (elems (v1.References c)) = true.
Proof.
  destruct (parent_always_referenced span_follows_parent) as (c & Hc & Ha & _).
  - discriminate.
  - exists c. split; [exact Hc | exact Ha].
Defined.

Lemma append_refs_nil (rs : list jaegerthrift.SpanRef) :
  append_refs None rs
  = match rs with
    | [] => None
    | _ :: _ => Some (map convertSpanRef rs)
    end.
Proof.
  destruct rs as [|r rs]; [reflexivity|].
  unfold append_refs. cbn [fold_left].
  assert (H : forall l acc,
             fold_left (fun a x => append a (convertSpanRef x)) l (Some acc)
             = Some (acc ++ map convertSpanRef l)).
  { induction l as [|x l IH]; intros acc; cbn [fold_left map].
    - now rewrite app_nil_r.
    - unfold append at 2. cbn [elems]. rewrite IH, <- app_assoc. reflexivity. }
  unfold append at 2. cbn [elems app]. apply H.
Qed.

(** X3. The reference slice of the converted span is nil exactly when the
    span has no explicit reference (a nil or a zero-length list alike) and a
    zero parent span id; in every other case it is allocated and not
    empty. *)
Theorem References_nil_iff (s : jaegerthrift.Span) :
  exists c, convertSpan s = Some c /\
    (v1.References c = None <->
     elems (jaegerthrift.References s) = [] /\ jaegerthrift.ParentSpanId s = 0) /\
    (v1.References c <> None -> elems (v1.References c) <> []).
Proof.
  unfold convertSpan. eexists. split; [reflexivity|].
  cbn [v1.References]. rewrite append_refs_nil.
  destruct (elems (jaegerthrift.References s)) as [|r rs];
    destruct (jaegerthrift.ParentSpanId s =? 0) eqn:E0; cbn [negb].
  - apply Z.eqb_eq in E0. repeat split; auto; intros H; contradiction.
  - apply Z.eqb_neq in E0. cbn [elems alreadyPresent negb]. unfold append.
    cbn [elems app]. repeat split; try discriminate;
      intros [_ H]; contradiction.
  - repeat split; try discriminate; intros [H _]; discriminate.
  - destruct (alreadyPresent _ _); cbn [negb]; unfold append;
      cbn [elems map]; repeat split; try discriminate;
      try (intros [H _]; discriminate);
      intros _ H; try discriminate;
      destruct (map convertSpanRef rs); discriminate.
Qed.

Lemma References_nil_iff_witness :
  exists c,
    convertSpan
      (jaegerthrift.mkSpan 1 0 2 0 EmptyString (Some []) 0 0 100 None None)
    = Some c /\
    v1.References c = None.
Proof.
  destruct (References_nil_iff
              (jaegerthrift.mkSpan 1 0 2 0 EmptyString (Some []) 0 0 100
                 None None)) as (c & Hc & Hnil & _).
  exists c. split; [exact Hc|]. apply Hnil. split; reflexivity.
Defined.

(** ** Flags, times and identifiers of the converted span *)

Lemma uint32_same_bits (x : Z) : same_bits32 x (Int.uint32 x).
Proof.
  unfold same_bits32, Int.uint32. split.
  - apply Z.mod_pos_bound. lia.
  - intros i Hi. apply Z.mod_pow2_bits_low. lia.
Qed.

(** X4. The flags of the converted span are the unsigned 32-bit value with
    the bit pattern of the signed legacy flags: the same number when the
    legacy flags are not negative, [2^32] more when they are. *)
Theorem flags_reinterpreted (s : jaegerthrift.Span) :
  exists c, convertSpan s = Some c /\
    same_bits32 (jaegerthrift.Flags s) (v1.Flags c) /\
    (Int.int32_range (jaegerthrift.Flags s) ->
     (0 <= jaegerthrift.Flags s -> v1.Flags c = jaegerthrift.Flags s) /\
     (jaegerthrift.Flags s < 0 -> v1.Flags c = jaegerthrift.Flags s + 2 ^ 32)).
Proof.
  unfold convertSpan. eexists. split; [reflexivity|]. cbn [v1.Flags].
  split; [apply uint32_same_bits|].
  unfold Int.int32_range, Int.uint32. intros H. split; intros Hs.
  - apply Z.mod_small. lia.
  - symmetry. apply (Z.mod_unique_pos _ (2 ^ 32) (-1)); lia.
Qed.

Lemma flags_reinterpreted_witness :
  exists c, convertSpan span_negative_ids = Some c /\ v1.Flags c = 4294967295.
Proof.
  destruct (flags_reinterpreted span_negative_ids) as (c & Hc & _ & Hval).
  exists c. split; [exact Hc|].
  destruct Hval as [_ Hneg].
  - unfold Int.int32_range. simpl. lia.
  - rewrite Hneg; [reflexivity | simpl; lia].
Defined.

Lemma wrap_int64_range (z : Z) : Int.int64_range (Int.wrap_int64 z).
Proof.
  unfold Int.int64_range, Int.wrap_int64.
  pose proof (Z.mod_pos_bound (z + 2 ^ 63) (2 ^ 64) ltac:(lia)). lia.
Qed.

Lemma wrap_int64_congruent (z : Z) : (Int.wrap_int64 z - z) mod 2 ^ 64 = 0.
Proof.
  unfold Int.wrap_int64.
  rewrite (Z.mod_eq (z + 2 ^ 63) (2 ^ 64)) by lia.
  replace (z + 2 ^ 63 - 2 ^ 64 * ((z + 2 ^ 63) / 2 ^ 64) - 2 ^ 63 - z)
    with (- ((z + 2 ^ 63) / 2 ^ 64) * 2 ^ 64) by lia.
  apply Z.mod_mul. lia.
Qed.

(** X5. Whatever the legacy values, the converted duration and the
    nanosecond count of the converted start time lie in the signed 64-bit
    range and differ from the legacy value times 1000 by a multiple of
    [2^64]; the start time is normalized, its nanosecond field within the
    second. *)
Theorem time_conversion_wraps (s : jaegerthrift.Span) :
  exists c, convertSpan s = Some c /\
    Int.int64_range (v1.Duration c) /\
    (v1.Duration c - jaegerthrift.Duration s * 1000) mod 2 ^ 64 = 0 /\
    Int.int64_range (time.since_epoch (v1.StartTime c)) /\
    (time.since_epoch (v1.StartTime c) - jaegerthrift.StartTime s * 1000)
      mod 2 ^ 64 = 0 /\
    0 <= time.nsec (v1.StartTime c) < 1000000000.
Proof.
  unfold convertSpan. eexists. split; [reflexivity|].
  cbn [v1.Duration v1.StartTime]. unfold Int.mul_int64.
  change time.Microsecond with 1000.
  rewrite since_epoch_Unix.
  repeat apply conj;
    try apply wrap_int64_range; try apply wrap_int64_congruent;
    apply nsec_Unix.
Qed.

(** X6. Between spans whose signed fields are in range, the conversion of
    identifiers loses nothing: two converted spans have the same span id
    exactly when the legacy spans have, and the same trace id exactly when
    both legacy halves agree. *)
Theorem ids_injective (s1 s2 : jaegerthrift.Span) :
  jaegerthrift.Span_wf s1 -> jaegerthrift.Span_wf s2 ->
  exists c1 c2, convertSpan s1 = Some c1 /\ convertSpan s2 = Some c2 /\
    (v1.SpanID c1 = v1.SpanID c2 <->
     jaegerthrift.SpanId s1 = jaegerthrift.SpanId s2) /\
    (v1.span_TraceID c1 = v1.span_TraceID c2 <->
     jaegerthrift.TraceIdLow s1 = jaegerthrift.TraceIdLow s2 /\
     jaegerthrift.TraceIdHigh s1 = jaegerthrift.TraceIdHigh s2).
Proof.
  intros (Hl1 & Hh1 & Hs1 & _) (Hl2 & Hh2 & Hs2 & _).
  unfold convertSpan. eexists. eexists.
  split; [reflexivity|]. split; [reflexivity|].
  cbn [v1.SpanID v1.span_TraceID]. split; split.
  - now apply uint64_inj.
  - intros ->. reflexivity.
  - intros H. injection H as Hl Hh. split; now apply uint64_inj.
  - intros [-> ->]. reflexivity.
Qed.

Lemma ids_injective_witness :
  exists c1 c2,
    convertSpan span_negative_ids = Some c1 /\
    convertSpan span_implicit_parent = Some c2 /\
    v1.SpanID c1 <> v1.SpanID c2.
Proof.
  assert (Hwf : forall a b c p f,
             - 2 ^ 31 <= a < 2 ^ 31 -> - 2 ^ 31 <= b < 2 ^ 31 ->
             - 2 ^ 31 <= c < 2 ^ 31 -> - 2 ^ 31 <= p < 2 ^ 31 ->
             - 2 ^ 31 <= f < 2 ^ 31 ->
             jaegerthrift.Span_wf
               (jaegerthrift.mkSpan a b c p EmptyString None f 0 0 None None)).
  { intros. unfold jaegerthrift.Span_wf, Int.int64_range, Int.int32_range.
    simpl. lia. }
  destruct (ids_injective span_negative_ids span_implicit_parent)
    as (c1 & c2 & H1 & H2 & Hid & _).
  - apply Hwf; lia.
  - unfold span_implicit_parent, jaegerthrift.Span_wf, Int.int64_range,
      Int.int32_range. simpl. lia.
  - exists c1, c2. split; [exact H1|]. split; [exact H2|].
    intros Heq. apply Hid in Heq. discriminate.
Defined.

(** ** Tag lists and processes *)

Lemma elems_convertTags (tags : slice jaegerthrift.Tag) :
  elems (convertTags tags) = map convertTag (elems tags).
Proof.
  destruct (elems tags) as [|t ts] eqn:E.
  - now rewrite convertTags_empty.
  - rewrite convertTags_nonempty by (rewrite E; discriminate).
    now rewrite E.
Qed.

Lemma convertTag_key (t : jaegerthrift.Tag) :
  v1.Key (convertTag t) = jaegerthrift.Key t.
Proof.
  unfold convertTag.
  repeat match goal with
         | |- context [if ?b then _ else _] => destruct b
         end;
    cbv zeta; unfold set_if_present;
    repeat match goal with
           | |- context [match ?p with Some _ => _ | None => _ end] => destruct p
           end; reflexivity.
Qed.

Lemma convertTags_nil_iff (tags : slice jaegerthrift.Tag) :
  convertTags tags = None <-> elems tags = [].
Proof.
  split.
  - intros H. destruct (elems tags) as [|t ts] eqn:E; [reflexivity|].
    rewrite convertTags_nonempty in H by (rewrite E; discriminate).
    discriminate.
  - apply convertTags_empty.
Qed.

(** X7. [convertTags] keeps the keys of the tags as they come: the keys of
    the result are the keys of the input, in the same order, repeated keys
    included. *)
Theorem convertTags_keys (tags : slice jaegerthrift.Tag) :
  map v1.Key (elems (convertTags tags))
  = map jaegerthrift.Key (elems tags).
Proof.
  rewrite elems_convertTags, map_map.
  apply map_ext. intros t. apply convertTag_key.
Qed.

(** X8. A present legacy process converts to the same value as the nil
    process exactly when its service name is empty and it has no tags: the
    two cannot be told apart after conversion. *)
Theorem convertProcess_like_nil (p : jaegerthrift.Process) :
  convertProcess (Some p) = convertProcess None <->
  jaegerthrift.ServiceName p = EmptyString /\
  elems (jaegerthrift.proc_Tags p) = [].
Proof.
  cbn [convertProcess]. split.
  - intros H. injection H as Hn Ht. split; [exact Hn|].
    now apply convertTags_nil_iff.
  - intros [Hn Ht]. rewrite Hn. apply convertTags_nil_iff in Ht.
    now rewrite Ht.
Qed.

(** ** The handler and its collaborators *)

Lemma convertSpans_from (proc : ptr v1.Process) (ss : list jaegerthrift.Span) :
  forall acc : list (ptr v1.Span),
    convertSpans proc (Some acc) ss
    = Some (acc ++ map (fun s => set_Process (convertSpan s) proc) ss).
Proof.
  unfold convertSpans.
  induction ss as [|s ss IH]; intros acc; cbn [fold_left map].
  - now rewrite app_nil_r.
  - unfold append at 2. cbn [elems]. rewrite IH, <- app_assoc. reflexivity.
Qed.

(** What the handler does once the body has been read: it depends on the
    decoder at the body's bytes and on the client at the one request built
    from the decoded batch. *)
Lemma HandleTraces_reaching
    (Batch_Read : TMemoryBuffer -> error + jaegerthrift.Batch)
    (PostSpans : PostSpansRequest -> option error)
    (r : http.Request) (w : effects) :
  reaches_decoder r ->
  HandleTraces Batch_Read PostSpans r w
  = let data := http.read_data (http.body r) in
    let w :=
      match http.close_err (http.body r) with
      | Some e => Println "body close error:" [ArgErr e] w
      | None => w
      end in
    match Batch_Read data with
    | inl e =>
        WriteHeader http.StatusBadRequest
          (Println "thrift decode failed"
             [ArgInt (Z.of_nat (List.length data)); ArgErr e] w)
    | inr batch =>
        match PostSpans (request_of batch) with
        | Some e =>
            WriteHeader http.StatusInternalServerError
              (Println "gRPC PostSpans error:" [ArgErr e] w)
        | None =>
            Println "forwarded spans:"
              [ArgInt (Z.of_nat (List.length (elems (jaegerthrift.Spans batch))))]
              (WriteHeader http.StatusAccepted w)
        end
    end.
Proof.
  intros (Hm & He & Hd).
  unfold HandleTraces, io_ReadAll, TMemoryBuffer_Write, NewTMemoryBuffer,
    request_of.
  rewrite Hm, He. cbn [negb String.eqb].
  replace (String.eqb http.MethodPost http.MethodPost) with true
    by (symmetry; apply String.eqb_refl).
  cbn [negb].
  destruct (http.read_data (http.body r)) as [|b data]; [contradiction|].
  cbn [List.length Z.of_nat Z.eqb snd app].
  cbv zeta.
  destruct (Batch_Read (b :: data)) as [e|batch]; [reflexivity|].
  rewrite convertSpans_from. cbn [app].
  destruct (PostSpans _) as [e|]; [reflexivity|].
  unfold len. cbn [elems]. now rewrite length_map.
Qed.

Lemma HandleTraces_not_reaching
    (Batch_Read : TMemoryBuffer -> error + jaegerthrift.Batch)
    (PostSpans : PostSpansRequest -> option error)
    (r : http.Request) (w : effects) :
  ~ reaches_decoder r ->
  HandleTraces Batch_Read PostSpans r w
  = if negb (String.eqb (http.Method r) http.MethodPost) then
      WriteHeader http.StatusMethodNotAllowed w
    else
      match http.read_err (http.body r) with
      | Some e =>
          WriteHeader http.StatusBadRequest
            (Println "read body error:" [ArgErr e] w)
      | None =>
          WriteHeader http.StatusBadRequest
            (Println "empty request body" []
               match http.close_err (http.body r) with
               | Some e => Println "body close error:" [ArgErr e] w
               | None => w
               end)
      end.
Proof.
  intros Hn. unfold HandleTraces, io_ReadAll.
  destruct (String.eqb_spec (http.Method r) http.MethodPost) as [Hm|Hm];
    cbn [negb]; [|reflexivity].
  destruct (http.read_err (http.body r)) as [e|] eqn:He; [reflexivity|].
  destruct (http.read_data (http.body r)) as [|b data] eqn:Hd; [reflexivity|].
  exfalso. apply Hn. unfold reaches_decoder. rewrite He, Hd.
  repeat split; [exact Hm | discriminate].
Qed.

Lemma reaches_decoder_dec (r : http.Request) :
  reaches_decoder r \/ ~ reaches_decoder r.
Proof.
  unfold reaches_decoder.
  destruct (String.eqb_spec (http.Method r) http.MethodPost) as [Hm|Hm];
    [|right; intros (H & _); contradiction].
  destruct (http.read_err (http.body r)) as [e|];
    [right; intros (_ & H & _); discriminate|].
  destruct (http.read_data (http.body r)) as [|b data];
    [right; intros (_ & _ & H); contradiction|].
  left. repeat split; auto. discriminate.
Qed.

(** X9. The handler consults the collector client for one request only,
    and only after a successful decode: the submission built from the
    decoded batch, that is the converted process and the converted spans in
    order, each with that process attached.  Two clients that answer this
    request alike leave the same status codes and log lines. *)
Theorem HandleTraces_client_agreement
    (Batch_Read : TMemoryBuffer -> error + jaegerthrift.Batch)
    (P1 P2 : PostSpansRequest -> option error)
    (r : http.Request) (w : effects) :
  (reaches_decoder r ->
   forall batch,
     Batch_Read (http.read_data (http.body r)) = inr batch ->
     P1 (request_of batch) = P2 (request_of batch)) ->
  HandleTraces Batch_Read P1 r w = HandleTraces Batch_Read P2 r w.
Proof.
  intros Hag.
  destruct (reaches_decoder_dec r) as [Hr|Hr].
  - rewrite !HandleTraces_reaching by exact Hr. cbv zeta.
    destruct (Batch_Read (http.read_data (http.body r))) as [e|batch] eqn:Eb;
      [reflexivity|].
    now rewrite (Hag Hr batch eq_refl).
  - now rewrite !HandleTraces_not_reaching by exact Hr.
Qed.

Lemma HandleTraces_client_agreement_witness :
  HandleTraces decode_one_span collector_accepts post_one_byte no_effects
  = HandleTraces decode_one_span collector_refuses_empty post_one_byte no_effects.
Proof.
  apply (HandleTraces_client_agreement decode_one_span collector_accepts
           collector_refuses_empty post_one_byte no_effects).
  intros _ batch Hb. injection Hb as <-. reflexivity.
Defined.

(** X10. The handler consults the decoder only for a POST whose body was
    read without error and is not empty, and only on the bytes of that
    body.  Two decoders that agree there leave the same status codes and
    log lines; for any other request the decoder does not matter at all. *)
Theorem HandleTraces_decoder_agreement
    (D1 D2 : TMemoryBuffer -> error + jaegerthrift.Batch)
    (PostSpans : PostSpansRequest -> option error)
    (r : http.Request) (w : effects) :
  (reaches_decoder r ->
   D1 (http.read_data (http.body r)) = D2 (http.read_data (http.body r))) ->
  HandleTraces D1 PostSpans r w = HandleTraces D2 PostSpans r w.
Proof.
  intros Hag.
  destruct (reaches_decoder_dec r) as [Hr|Hr].
  - rewrite !HandleTraces_reaching by exact Hr. cbv zeta.
    now rewrite (Hag Hr).
  - now rewrite !HandleTraces_not_reaching by exact Hr.
Qed.

Lemma HandleTraces_decoder_agreement_witness :
  HandleTraces decode_one_span collector_accepts post_one_byte no_effects
  = HandleTraces decode_0c collector_accepts post_one_byte no_effects /\
  HandleTraces decode_one_span collector_accepts
    (http.mkRequest "GET" (http.mkBody [Byte.x0c] None None)) no_effects
  = HandleTraces decode_fails collector_accepts
      (http.mkRequest "GET" (http.mkBody [Byte.x0c] None None)) no_effects.
Proof.
  split.
  - apply (HandleTraces_decoder_agreement decode_one_span decode_0c).
    intros _. reflexivity.
  - apply (HandleTraces_decoder_agreement decode_one_span decode_fails).
    intros (Hm & _). discriminate.
Defined.

(** X11. The loop of the handler over the decoded spans yields an allocated
    slice, also for a batch without spans, with one non-nil entry per span
    in the order of the batch: the span [convertSpan] gives, which has no
    process of its own, with the shared process attached. *)
Theorem convertSpans_attaches_process
    (proc : ptr v1.Process) (ss : list jaegerthrift.Span) :
  exists l, convertSpans proc (Some []) ss = Some l /\
    List.length l = List.length ss /\
    forall i s, nth_error ss i = Some s ->
      exists c sp,
        convertSpan s = Some c /\ v1.span_Process c = None /\
        nth_error l i = Some (Some sp) /\
        v1.span_Process sp = proc /\
        set_Process (Some c) proc = Some sp /\
        set_Process (Some sp) None = Some c.
Proof.
  rewrite convertSpans_from. cbn [app]. eexists. split; [reflexivity|].
  split; [apply length_map|].
  intros i s Hs.
  eexists. eexists. split; [reflexivity|]. split; [reflexivity|].
  split; [|split; [|split]].
  - apply (map_nth_error (fun s => set_Process (convertSpan s) proc)) in Hs.
    rewrite Hs. reflexivity.
  - reflexivity.
  - reflexivity.
  - reflexivity.
Qed.

Lemma convertSpans_attaches_process_witness :
  exists sp,
    nth_error
      (elems (convertSpans (convertProcess None) (Some [])
                [span_one_second; span_implicit_parent])) 1
    = Some (Some sp) /\
    v1.span_Process sp = Some (v1.mkProcess EmptyString None) /\
    v1.SpanID sp = 2.
Proof.
  destruct (convertSpans_attaches_process (convertProcess None)
              [span_one_second; span_implicit_parent]) as (l & Hl & _ & Hnth).
  destruct (Hnth 1%nat span_implicit_parent eq_refl)
    as (c & sp & Hc & _ & Hi & Hp & Hset & _).
  exists sp. rewrite Hl. cbn [elems]. split; [exact Hi|]. split; [exact Hp|].
  injection Hc as <-. injection Hset as <-. reflexivity.
Defined.

(** X12. A failure to close the request body never changes the answer: the
    status codes are the same with and without it.  When the body was read
    (a POST without read error) the failure adds one log line,
    "body close error:", ahead of the lines of the run without it; in every
    other case the body is not closed and the log is the same. *)
Theorem close_error_only_logged
    (Batch_Read : TMemoryBuffer -> error + jaegerthrift.Batch)
    (PostSpans : PostSpansRequest -> option error)
    (r : http.Request) (e : error) (w : effects) :
  let failing := HandleTraces Batch_Read PostSpans (with_close_err r (Some e)) w in
  let closing := HandleTraces Batch_Read PostSpans (with_close_err r None) w in
  statuses failing = statuses closing /\
  (http.Method r = http.MethodPost -> http.read_err (http.body r) = None ->
   exists rest,
     logged closing = logged w ++ rest /\
     logged failing = logged w ++ ("body close error:"%string, [ArgErr e]) :: rest) /\
  (http.Method r <> http.MethodPost \/ http.read_err (http.body r) <> None ->
   logged failing = logged closing).
Proof.
  cbv zeta. unfold HandleTraces, io_ReadAll, TMemoryBuffer_Write,
    NewTMemoryBuffer, with_close_err.
  cbn [http.Method http.body http.read_data http.read_err http.close_err].
  destruct (String.eqb_spec (http.Method r) http.MethodPost) as [Hm|Hm];
    cbn [negb].
  2:{ split; [reflexivity|]. split; [contradiction | reflexivity]. }
  destruct (http.read_err (http.body r)) as [e0|].
  { split; [reflexivity|]. split; [discriminate | reflexivity]. }
  split; [|split].
  - destruct (http.read_data (http.body r)) as [|b data]; [reflexivity|].
    cbn [List.length Z.of_nat Z.eqb snd app]. cbv zeta.
    destruct (Batch_Read (b :: data)) as [e1|batch]; [reflexivity|].
    destruct (PostSpans _); reflexivity.
  - intros _ _.
    destruct (http.read_data (http.body r)) as [|b data].
    + eexists. cbn. split; [reflexivity|].
      rewrite <- app_assoc. reflexivity.
    + cbn [List.length Z.of_nat Z.eqb snd app]. cbv zeta.
      destruct (Batch_Read (b :: data)) as [e1|batch].
      * eexists. cbn. split; [reflexivity|].
        rewrite <- app_assoc. reflexivity.
      * destruct (PostSpans _); eexists; cbn; (split; [reflexivity|]);
          rewrite <- app_assoc; reflexivity.
  - intros [H | H]; contradiction.
Qed.

Lemma close_error_only_logged_witness :
  logged (HandleTraces decode_one_span collector_accepts
            (with_close_err post_one_byte (Some "closed"%string)) no_effects)
  = ("body close error:"%string, [ArgErr "closed"%string])
    :: logged (HandleTraces decode_one_span collector_accepts
                 (with_close_err post_one_byte None) no_effects).
Proof.
  destruct (close_error_only_logged decode_one_span collector_accepts
              post_one_byte "closed"%string no_effects)
    as (_ & Hlog & _).
  destruct (Hlog eq_refl eq_refl) as (rest & Hc & Hf).
  etransitivity; [exact Hf|].
  cbn [logged no_effects app]. f_equal. symmetry. exact Hc.
Defined.

(** X13. When the handler answers 202, the batch decoded from the body was
    accepted by the collector and the last log line is "forwarded spans:"
    with the number of spans of that batch. *)
Theorem accepted_logs_span_count
    (Batch_Read : TMemoryBuffer -> error + jaegerthrift.Batch)
    (PostSpans : PostSpansRequest -> option error)
    (r : http.Request) (w : effects) :
  statuses (HandleTraces Batch_Read PostSpans r w)
  = statuses w ++ [http.StatusAccepted] ->
  exists batch earlier,
    Batch_Read (http.read_data (http.body r)) = inr batch /\
    PostSpans (request_of batch) = None /\
    logged (HandleTraces Batch_Read PostSpans r w)
    = earlier ++
      [("forwarded spans:"%string,
        [ArgInt (Z.of_nat (List.length (elems (jaegerthrift.Spans batch))))])].
Proof.
  destruct (reaches_decoder_dec r) as [Hr|Hr].
  - rewrite HandleTraces_reaching by exact Hr. cbv zeta.
    destruct (Batch_Read (http.read_data (http.body r))) as [e|batch] eqn:Eb.
    + cbn [statuses WriteHeader Println].
      destruct (http.close_err (http.body r)); cbn [statuses Println];
        intros H; apply app_inv_head in H; discriminate.
    + destruct (PostSpans (request_of batch)) as [e|] eqn:Ep.
      * destruct (http.close_err (http.body r));
          cbn [statuses WriteHeader Println];
          intros H; apply app_inv_head in H; discriminate.
      * intros _. exists batch. eexists. split; [reflexivity|].
        split; [exact Ep|]. cbn [logged Println WriteHeader]. reflexivity.
  - rewrite HandleTraces_not_reaching by exact Hr.
    destruct (negb (String.eqb (http.Method r) http.MethodPost)).
    + cbn [statuses WriteHeader]. intros H. apply app_inv_head in H.
      discriminate.
    + destruct (http.read_err (http.body r));
        [|destruct (http.close_err (http.body r))];
        cbn [statuses WriteHeader Println];
        intros H; apply app_inv_head in H; discriminate.
Qed.

Lemma accepted_logs_span_count_witness :
  exists earlier,
    logged (HandleTraces decode_one_span collector_accepts post_one_byte no_effects)
    = earlier ++ [("forwarded spans:"%string, [ArgInt 1])].
Proof.
  destruct (accepted_logs_span_count decode_one_span collector_accepts
              post_one_byte no_effects eq_refl)
    as (batch & earlier & Hb & _ & Hlog).
  exists earlier. rewrite Hlog. injection Hb as <-. reflexivity.
Defined.

(** X14. The handler logs nothing for a method other than POST, and for a
    POST exactly one line for the outcome, preceded by one more line when
    the body was read and closing it failed. *)
Theorem HandleTraces_log_lines
    (Batch_Read : TMemoryBuffer -> error + jaegerthrift.Batch)
    (PostSpans : PostSpansRequest -> option error)
    (r : http.Request) (w : effects) :
  List.length (logged (HandleTraces Batch_Read PostSpans r w))
  = (List.length (logged w) + expected_log_lines r)%nat /\
  (logged (HandleTraces Batch_Read PostSpans r w) = logged w <->
   http.Method r <> http.MethodPost).
Proof.
  assert (Hlen :
    List.length (logged (HandleTraces Batch_Read PostSpans r w))
    = (List.length (logged w) + expected_log_lines r)%nat).
  { unfold expected_log_lines.
    destruct (reaches_decoder_dec r) as [Hr|Hr].
    - rewrite HandleTraces_reaching by exact Hr. cbv zeta.
      destruct Hr as (Hm & He & _). rewrite Hm, He.
      replace (String.eqb http.MethodPost http.MethodPost) with true
        by (symmetry; apply String.eqb_refl).
      cbn [negb].
      destruct (Batch_Read _) as [e|batch];
        [|destruct (PostSpans _)];
        destruct (http.close_err (http.body r));
        cbn [logged WriteHeader Println]; rewrite ?length_app;
        cbn [List.length]; lia.
    - rewrite HandleTraces_not_reaching by exact Hr.
      destruct (negb (String.eqb (http.Method r) http.MethodPost));
        [cbn [logged WriteHeader]; lia|].
      destruct (http.read_err (http.body r));
        [|destruct (http.close_err (http.body r))];
        cbn [logged WriteHeader Println]; rewrite ?length_app;
        cbn [List.length]; lia. }
  split; [exact Hlen|].
  split.
  - intros Heq Hm. rewrite Heq in Hlen. unfold expected_log_lines in Hlen.
    rewrite Hm in Hlen.
    replace (String.eqb http.MethodPost http.MethodPost) with true in Hlen
      by (symmetry; apply String.eqb_refl).
    cbn [negb] in Hlen.
    destruct (http.read_err (http.body r));
      [|destruct (http.close_err (http.body r))]; lia.
  - intros Hm. unfold HandleTraces.
    destruct (String.eqb_spec (http.Method r) http.MethodPost) as [H|H];
      [contradiction|]. reflexivity.
Qed.

Lemma HandleTraces_log_lines_witness :
  logged (HandleTraces decode_fails collector_refuses
            (http.mkRequest "GET" (http.mkBody [] None None)) no_effects)
  = [].
Proof.
  apply (HandleTraces_log_lines decode_fails collector_refuses
           (http.mkRequest "GET" (http.mkBody [] None None)) no_effects).
  discriminate.
Defined.

(** ** Log entries *)

(** X15. [convertLogs] converts the fields of every log entry in place: the
    entry at each position of the result carries the keys of the fields of
    the legacy entry at that position, in order, and a nil field slice
    exactly when the legacy entry has no field. *)
Theorem convertLogs_fields (logs : slice jaegerthrift.Log) :
  forall i l, nth_error (elems logs) i = Some l ->
    exists l',
      nth_error (elems (convertLogs logs)) i = Some l' /\
      v1.Fields l' = convertTags (jaegerthrift.Fields l) /\
      map v1.Key (elems (v1.Fields l'))
      = map jaegerthrift.Key (elems (jaegerthrift.Fields l)) /\
      (v1.Fields l' = None <-> elems (jaegerthrift.Fields l) = []).
Proof.
  intros i l Hl. exists (convertLog l). split.
  - rewrite elems_convertLogs. now apply map_nth_error.
  - unfold convertLog. cbn [v1.Fields]. split; [reflexivity|]. split.
    + rewrite elems_convertTags, map_map.
      apply map_ext. intros t. apply convertTag_key.
    + apply convertTags_nil_iff.
Qed.

Lemma convertLogs_fields_witness :
  exists l',
    nth_error
      (elems (convertLogs
                (Some [jaegerthrift.mkLog 1000 (Some []);
                       jaegerthrift.mkLog 2000
                         (Some [jaegerthrift.mkTag "event"
                                  jaegerthrift.TagType_STRING
                                  (Some "error"%string) None None None None])])))
      0
    = Some l' /\
    v1.Fields l' = None.
Proof.
  destruct (convertLogs_fields
              (Some [jaegerthrift.mkLog 1000 (Some []);
                     jaegerthrift.mkLog 2000
                       (Some [jaegerthrift.mkTag "event"
                                jaegerthrift.TagType_STRING
                                (Some "error"%string) None None None None])])
              0%nat (jaegerthrift.mkLog 1000 (Some [])) eq_refl)
    as (l' & Hn & _ & _ & Hnil).
  exists l'. split; [exact Hn|]. apply Hnil. reflexivity.
Defined.
